(** * roon-mpris: the zone-to-player synchronisation engine

    A shallow embedding of the bridge's JavaScript source (the multi-zone
    bridge with seek support, and the earlier [index.js] where it differs)
    together with the properties its specification states about it and
    further properties of the code.

    Conventions of the embedding
    - a JavaScript string is the list of its UTF-16 code units;
    - the numbers the engine handles (seconds, microseconds, hash values,
      character codes) are integers, kept as [Z] or [N], with the 32-bit
      conversions of the bitwise operators written out;
    - a property that may be [undefined] is an [option];
    - the module-level variables [core], [argv] and [zonePlayerMap], the
      player objects and everything the engine does to the outside (console
      output, calls into the transport and the player library) live in an
      explicit [World] that every handler transforms;
    - a JavaScript exception is the [Throw] outcome of a handler. *)

From Stdlib Require Import ZArith List String Ascii Lia Bool.
From stdpp Require Import base option list gmap sorting.

Local Open Scope Z_scope.

(** ** JavaScript strings *)

Abbreviation jsstring := (list N).

(** An ASCII literal of the source, as code units. *)
Definition lit (s : string) : jsstring :=
  map N_of_ascii (list_ascii_of_string s).

Definition in_range (lo hi c : N) : bool := ((lo <=? c) && (c <=? hi))%N.
Definition is_digit (c : N) : bool := in_range 48 57 c.
Definition is_upper (c : N) : bool := in_range 65 90 c.
Definition is_lower (c : N) : bool := in_range 97 122 c.

(** [v || ''] for a property that holds a string or is [undefined]. *)
Definition or_empty (v : option jsstring) : jsstring :=
  match v with
  | Some s => s
  | None => []
  end.

(** [`${v}`] for a property that holds a string or is [undefined]. *)
Definition template (v : option jsstring) : jsstring :=
  match v with
  | Some s => s
  | None => lit "undefined"
  end.

(** ** Name sanitizer *)

Module Sanitizer.

(** The character class [[A-Za-z0-9_-]]. *)
Definition dbus_allowed (c : N) : bool :=
  is_upper c || is_lower c || is_digit c || (c =? 95)%N || (c =? 45)%N.

(** [displayName.replace(/[^A-Za-z0-9_-]/g, '_')]: without the [u] flag
    the pattern is tried on every code unit. *)
Definition replace_disallowed (s : jsstring) : jsstring :=
  map (fun c => if dbus_allowed c then c else 95%N) s.

(** [/^[0-9]/.test(s)] *)
Definition starts_with_digit (s : jsstring) : bool :=
  match s with
  | c :: _ => is_digit c
  | [] => false
  end.

Definition sanitizeForDBus (displayName : jsstring) : jsstring :=
  let sanitized := replace_disallowed displayName in
  let sanitized :=
    if starts_with_digit sanitized then lit "zone_" ++ sanitized
    else sanitized in
  match sanitized with
  | [] => lit "unnamed_zone"
  | _ :: _ => sanitized
  end.

(** [/^[A-Za-z0-9_-]+$/.test(s)] *)
Definition matches_dbus_name (s : jsstring) : bool :=
  match s with
  | [] => false
  | _ :: _ => forallb dbus_allowed s
  end.

End Sanitizer.

(** ** 32-bit integer operators *)

Module Int32.

Definition ToInt32 (z : Z) : Z := (z + 2 ^ 31) mod 2 ^ 32 - 2 ^ 31.
Definition ToUint32 (z : Z) : Z := z mod 2 ^ 32.

(** [a << k] *)
Definition shl (a k : Z) : Z :=
  ToInt32 (Z.shiftl (ToInt32 a) (ToUint32 k mod 32)).

(** [a & b] *)
Definition and (a b : Z) : Z := ToInt32 (Z.land (ToInt32 a) (ToInt32 b)).

(** [a >>> k] *)
Definition ushr (a k : Z) : Z :=
  ToUint32 (Z.shiftr (ToUint32 a) (ToUint32 k mod 32)).

(** [n.toString(16)] for a non-negative integer [n]: lower-case digits,
    most significant first, no padding.  [fuel] bounds the number of
    digits produced. *)
Definition hex_digit (d : Z) : N :=
  if d <? 10 then Z.to_N (48 + d) else Z.to_N (97 + (d - 10)).

Fixpoint hex_digits (fuel : nat) (n : Z) (acc : jsstring) : jsstring :=
  match fuel with
  | O => acc
  | S fuel' =>
      let acc' := hex_digit (n mod 16) :: acc in
      if n / 16 =? 0 then acc' else hex_digits fuel' (n / 16) acc'
  end.

Definition toString16 (n : Z) : jsstring :=
  hex_digits (S (Z.to_nat (Z.log2 n))) n [].

(** Reading a hexadecimal numeral back. *)
Definition hex_digit_value (c : N) : Z :=
  if is_digit c then Z.of_N c - 48 else Z.of_N c - 97 + 10.

Definition hex_value (s : jsstring) : Z :=
  fold_left (fun v c => 16 * v + hex_digit_value c) s 0.

Definition is_hex_digit (c : N) : bool := is_digit c || in_range 97 102 c.

End Int32.

(** ** Data received from the transport *)

(** A property of unknown type: the optional audio-quality attributes are
    copied without being inspected beyond their truthiness. *)
Inductive jsval : Type :=
  | JNum (n : Z)
  | JStr (s : jsstring)
  | JBool (b : bool)
  | JNull.

Definition truthy (v : option jsval) : bool :=
  match v with
  | None | Some JNull => false
  | Some (JNum n) => negb (n =? 0)
  | Some (JStr s) => match s with [] => false | _ :: _ => true end
  | Some (JBool b) => b
  end.

(** [a || b] *)
Definition or_else (a b : option jsval) : option jsval :=
  if truthy a then a else b.

Record ThreeLine : Type := {
  line1 : option jsstring;
  line2 : option jsstring;
  line3 : option jsstring
}.

Record NowPlaying : Type := {
  three_line : option ThreeLine;
  np_length : option Z;          (* [length], seconds *)
  seek_position : Z;             (* seconds *)
  image_key : option jsstring;
  sample_rate : option jsval;
  bit_depth : option jsval;
  bitrate : option jsval;
  format : option jsval;
  media_format : option jsval;
  source_type : option jsval
}.

Record SourceControl : Type := { sc_sample_rate : option jsval }.
Record Output : Type := { source_controls : option (list SourceControl) }.

(** The state tokens of the transport. *)
Inductive ZoneState : Type := playing | paused | loading | stopped.

Definition state_token (s : ZoneState) : jsstring :=
  match s with
  | playing => lit "playing"
  | paused => lit "paused"
  | loading => lit "loading"
  | stopped => lit "stopped"
  end.

Record Zone : Type := {
  zone_id : jsstring;
  display_name : jsstring;
  state : ZoneState;
  now_playing : option NowPlaying;
  is_next_allowed : option bool;
  is_previous_allowed : option bool;
  is_pause_allowed : option bool;
  is_seek_allowed : option bool;
  outputs : option (list Output)
}.

(** An entry of [zones_seek_changed]. *)
Record SeekChange : Type := {
  chg_zone_id : jsstring;
  chg_seek_position : Z
}.

(** The [data] argument of the zone subscription callback. *)
Record Data : Type := {
  zones : option (list Zone);
  zones_added : option (list Zone);
  zones_changed : option (list Zone);
  zones_removed : option (list jsstring);
  zones_seek_changed : option (list SeekChange)
}.

(** ** Player objects and projection contexts *)

Record Metadata : Type := {
  mpris_trackid : jsstring;
  mpris_length : Z;
  mpris_artUrl : jsstring;
  xesam_title : option jsstring;
  xesam_album : option jsstring;
  xesam_artist : list jsstring;
  roon_sampleRate : option jsval;
  roon_bitDepth : option jsval;
  roon_bitrate : option jsval;
  roon_format : option jsval;
  roon_sourceType : option jsval;
  roon_outputSampleRate : option jsval
}.

(** The part of a player object the bridge touches.  [player_id] is the
    identity of the object (the rank of its construction); a property the
    bridge has not assigned yet reads [None]. *)
Record Player : Type := {
  player_id : nat;
  name : jsstring;
  identity : jsstring;
  has_bus : bool;                       (* [_bus] *)
  metadata : option Metadata;
  playbackStatus : option jsstring;
  canGoNext : option bool;
  canGoPrevious : option bool;
  canPause : option bool;
  canSeek : option bool;
  position : option Z
}.

Record Context : Type := {
  player : Player;
  zone : Zone;
  sanitizedName : jsstring;
  wsUrl : jsstring;
  lastReportedPosition : Z
}.

(** [context.zone], where a parameter named [zone] is in scope. *)
Definition snapshot (c : Context) : Zone := zone c.

Definition set_metadata (p : Player) (m : Metadata) : Player :=
  {| player_id := player_id p; name := name p; identity := identity p;
     has_bus := has_bus p; metadata := Some m;
     playbackStatus := playbackStatus p; canGoNext := canGoNext p;
     canGoPrevious := canGoPrevious p; canPause := canPause p;
     canSeek := canSeek p; position := position p |}.

Definition set_status_and_flags (p : Player) (status : jsstring)
    (next previous pause seek : option bool) : Player :=
  {| player_id := player_id p; name := name p; identity := identity p;
     has_bus := has_bus p; metadata := metadata p;
     playbackStatus := Some status; canGoNext := next;
     canGoPrevious := previous; canPause := pause;
     canSeek := seek; position := position p |}.

Definition set_position (p : Player) (micros : Z) : Player :=
  {| player_id := player_id p; name := name p; identity := identity p;
     has_bus := has_bus p; metadata := metadata p;
     playbackStatus := playbackStatus p; canGoNext := canGoNext p;
     canGoPrevious := canGoPrevious p; canPause := canPause p;
     canSeek := canSeek p; position := Some micros |}.

(** The object returned by the constructor [Player({name, identity, ...})]
    of the player library: connected to the session bus ([_bus]), none of
    the properties the bridge manages assigned yet. *)
Definition new_Player (id : nat) (name identity : jsstring) : Player :=
  {| player_id := id; name := name; identity := identity; has_bus := true;
     metadata := None; playbackStatus := None; canGoNext := None;
     canGoPrevious := None; canPause := None; canSeek := None;
     position := None |}.

Definition with_player (c : Context) (p : Player) : Context :=
  {| player := p; zone := zone c; sanitizedName := sanitizedName c;
     wsUrl := wsUrl c; lastReportedPosition := lastReportedPosition c |}.

Definition with_zone (c : Context) (z : Zone) : Context :=
  {| player := player c; zone := z; sanitizedName := sanitizedName c;
     wsUrl := wsUrl c; lastReportedPosition := lastReportedPosition c |}.

Definition with_lastReportedPosition (c : Context) (micros : Z) : Context :=
  {| player := player c; zone := zone c; sanitizedName := sanitizedName c;
     wsUrl := wsUrl c; lastReportedPosition := micros |}.

(** ** The world the engine runs in *)

(** [core]: the paired controller.  [ws_url] is the [_url] of
    [core.moo.transport.ws], or [None] when [moo], [transport] or [ws] is
    missing. *)
Record Core : Type := { ws_url : option jsstring }.

Inductive Control : Type := playpause | stop | next | previous.

Inductive SeekMode : Type := relative | absolute.

Inductive Unimplemented : Type :=
  | ev_raise | ev_pause | ev_play | ev_open | ev_volume | ev_loopStatus
  | ev_shuffle.

(** One constructor per [console.log] statement (or block, for
    [debugLogZone]) of the source, with the values it prints. *)
Inductive LogLine : Type :=
  | LogDebugZone (label : jsstring)
  | LogDebugTrackId (display : jsstring) (trackId : jsstring)
  | LogControl (display : jsstring) (cmd : Control)
  | LogSeekIgnored (display : option jsstring)
  | LogSetPositionIgnored (display : option jsstring)
  | LogSeekNotAllowed (display : jsstring)
  | LogSeekRelative (display : jsstring) (offsetMicros : Z)
  | LogSeekAbsolute (display : jsstring) (positionMicros : Z)
  | LogNotImplemented (display : option jsstring) (ev : Unimplemented)
  | LogQuit
  | LogCreating (display : jsstring)
  | LogRemoving (display : jsstring)
  | LogDetectedSeek (display : jsstring) (seconds : Z).

(** What the engine does to its collaborators, in order.  A seek amount is
    recorded in microseconds; the call passes it divided by 1000000. *)
Inductive Event : Type :=
  | ConsoleLog (l : LogLine)
  | PlayerNew (id : nat) (name identity : jsstring)
  | BusDisconnect (id : nat)
  | PlayerSeeked (id : nat) (micros : Z)
  | TransportControl (z : Zone) (cmd : Control)
  | TransportSeek (z : Zone) (mode : SeekMode) (micros : Z).

Definition is_log (e : Event) : bool :=
  match e with
  | ConsoleLog _ => true
  | _ => false
  end.

Record World : Type := {
  core : option Core;
  argv_debug : bool;
  zonePlayerMap : gmap jsstring Context;
  players_made : nat;
  trace : list Event
}.

Inductive JsError : Type :=
  | TypeError (reading : string).

Inductive Outcome (A : Type) : Type :=
  | Normal (a : A)
  | Throw (e : JsError).
Arguments Normal {A} a.
Arguments Throw {A} e.

(** Handlers: state passing, with exceptions that keep the state reached. *)
Definition M (A : Type) : Type := World -> Outcome A * World.

Definition ret {A} (a : A) : M A := fun w => (Normal a, w).

Definition bind {A B} (m : M A) (k : A -> M B) : M B :=
  fun w =>
    match m w with
    | (Normal a, w') => k a w'
    | (Throw e, w') => (Throw e, w')
    end.

Definition throw {A} (e : JsError) : M A := fun w => (Throw e, w).

Declare Scope js_scope.
Delimit Scope js_scope with js.
Notation "x <- m ;; k" := (bind m (fun x => k))
  (at level 100, m at next level, right associativity) : js_scope.
Notation "m ;;; k" := (bind m (fun _ => k))
  (at level 100, right associativity) : js_scope.
Local Open Scope js_scope.

(** The world after the engine has done [events]. *)
Definition log_events (w : World) (events : list Event) : World :=
  {| core := core w; argv_debug := argv_debug w;
     zonePlayerMap := zonePlayerMap w; players_made := players_made w;
     trace := trace w ++ events |}.

Definition emit (e : Event) : M unit :=
  fun w => (Normal tt, log_events w [e]).

Definition console_log (l : LogLine) : M unit := emit (ConsoleLog l).

Definition get_map : M (gmap jsstring Context) :=
  fun w => (Normal (zonePlayerMap w), w).

Definition get_core : M (option Core) := fun w => (Normal (core w), w).

Definition get_debug : M bool := fun w => (Normal (argv_debug w), w).

Definition modify_map (f : gmap jsstring Context -> gmap jsstring Context)
    : M unit :=
  fun w =>
    (Normal tt,
     {| core := core w; argv_debug := argv_debug w;
        zonePlayerMap := f (zonePlayerMap w);
        players_made := players_made w; trace := trace w |}).

(** The identity of the next player object. *)
Definition fresh_player : M nat :=
  fun w =>
    (Normal (players_made w),
     {| core := core w; argv_debug := argv_debug w;
        zonePlayerMap := zonePlayerMap w;
        players_made := S (players_made w); trace := trace w |}).

(** [for (const x of l) body] *)
Fixpoint for_of {A} (l : list A) (body : A -> M unit) : M unit :=
  match l with
  | [] => ret tt
  | x :: l' => body x ;;; for_of l' body
  end.

(** [if (c) body] *)
Definition when (c : bool) (body : M unit) : M unit :=
  if c then body else ret tt.

(** ** String helpers of the projection *)

(** The class [\s] of a regular expression, on code units. *)
Definition is_space (c : N) : bool :=
  in_range 9 13 c || (c =? 32)%N || (c =? 160)%N || (c =? 5760)%N
  || in_range 8192 8202 c || (c =? 8232)%N || (c =? 8233)%N
  || (c =? 8239)%N || (c =? 8287)%N || (c =? 12288)%N || (c =? 65279)%N.

Fixpoint span_spaces (s : jsstring) : nat :=
  match s with
  | c :: s' => if is_space c then S (span_spaces s') else O
  | [] => O
  end.

(** Length of the match of [/\s+\/\s+/] at the start of [s], if any.  Both
    [\s+] are greedy, and a shorter first run is never followed by the
    slash, so there is no backtracking to consider. *)
Definition separator_at (s : jsstring) : option nat :=
  let n1 := span_spaces s in
  match n1, drop n1 s with
  | S _, c :: rest =>
      if (c =? 47)%N then
        match span_spaces rest with
        | S n2 => Some (n1 + 1 + S n2)%nat
        | O => None
        end
      else None
  | _, _ => None
  end.

(** [s.split(/\s+\/\s+/)]: [cur] is the piece being read (reversed) and
    [skip] the number of code units of a separator still to pass over. *)
Fixpoint split_from (cur : jsstring) (skip : nat) (s : jsstring)
    : list jsstring :=
  match s with
  | [] => [rev cur]
  | c :: s' =>
      match skip with
      | S n => split_from cur n s'
      | O =>
          match separator_at (c :: s') with
          | Some k => rev cur :: split_from [] (pred k) s'
          | None => split_from (c :: cur) O s'
          end
      end
  end.

Definition split_artists (s : jsstring) : list jsstring := split_from [] O s.

(** [s.charAt(0).toUpperCase() + s.slice(1)] on an ASCII token. *)
Definition toUpperCase_ascii (c : N) : N :=
  if is_lower c then (c - 32)%N else c.

Definition capitalize (s : jsstring) : jsstring :=
  match s with
  | c :: s' => toUpperCase_ascii c :: s'
  | [] => []
  end.

(** [x ? x * 1000000 : 0] *)
Definition length_micros (len : option Z) : Z :=
  match len with
  | Some n => if n =? 0 then 0 else n * 1000000
  | None => 0
  end.

(** [if (v) metadata[key] = v] *)
Definition if_truthy (v : option jsval) : option jsval :=
  if truthy v then v else None.

(** [!flag] and [flag] as a condition. *)
Definition allowed (flag : option bool) : bool :=
  match flag with
  | Some b => b
  | None => false
  end.

(** ** The engine *)

Section Engine.

(** [player.objectPath(subpath)], a method of the player library, which
    is not part of the repository: the D-Bus object path of [subpath]
    under the player of the given name. *)
Variable objectPath : jsstring -> jsstring -> jsstring.

(** *** Track identity *)

(** One turn of the loop of [generateTrackId]. *)
Definition hash_step (hash : Z) (char : N) : Z :=
  let hash := Int32.shl hash 5 - hash + Z.of_N char in
  Int32.and hash hash.

(** [nowPlaying.three_line?.lineN || ''] *)
Definition track_title (nowPlaying : NowPlaying) : jsstring :=
  or_empty (three_line nowPlaying ≫= line1).
Definition track_artist (nowPlaying : NowPlaying) : jsstring :=
  or_empty (three_line nowPlaying ≫= line2).
Definition track_album (nowPlaying : NowPlaying) : jsstring :=
  or_empty (three_line nowPlaying ≫= line3).

Definition track_combined (nowPlaying : NowPlaying) : jsstring :=
  track_title nowPlaying ++ lit "|" ++ track_artist nowPlaying
    ++ lit "|" ++ track_album nowPlaying.

Definition track_hash (nowPlaying : NowPlaying) : Z :=
  fold_left hash_step (track_combined nowPlaying) 0.

Definition track_hashStr (nowPlaying : NowPlaying) : jsstring :=
  Int32.toString16 (Int32.ushr (track_hash nowPlaying) 0).

Definition generateTrackId (player : Player) (zoneId : jsstring)
    (nowPlaying : NowPlaying) : jsstring :=
  objectPath (name player)
    (lit "track/" ++ zoneId ++ lit "_" ++ track_hashStr nowPlaying).

(** *** Projection of a zone onto its player *)

Definition output_sample_rate (zone : Zone) : option jsval :=
  match outputs zone with
  | Some (output :: _) =>
      match source_controls output with
      | Some (source :: _) => if_truthy (sc_sample_rate source)
      | _ => None
      end
  | _ => None
  end.

(** The [metadata] object of [updatePlayerFromZone].  Reading [line1] of
    an absent [three_line], or calling [split] on an absent [line2],
    raises a [TypeError]. *)
Definition build_metadata (trackId : jsstring) (zone : Zone)
    (wsUrl : jsstring) (now_playing : NowPlaying) : Outcome Metadata :=
  match three_line now_playing with
  | None => Throw (TypeError "now_playing.three_line.line1")
  | Some tl =>
      match line2 tl with
      | None => Throw (TypeError "now_playing.three_line.line2.split")
      | Some artists =>
          Normal
            {| mpris_trackid := trackId;
               mpris_length := length_micros (np_length now_playing);
               mpris_artUrl :=
                 lit "http://" ++ wsUrl ++ lit "/image/"
                   ++ template (image_key now_playing);
               xesam_title := line1 tl;
               xesam_album := line3 tl;
               xesam_artist := split_artists artists;
               roon_sampleRate := if_truthy (sample_rate now_playing);
               roon_bitDepth := if_truthy (bit_depth now_playing);
               roon_bitrate := if_truthy (bitrate now_playing);
               roon_format :=
                 if_truthy
                   (or_else (format now_playing)
                      (media_format now_playing));
               roon_sourceType := if_truthy (source_type now_playing);
               roon_outputSampleRate := output_sample_rate zone |}
      end
  end.

(** The assignments to [playbackStatus] and to the capability flags that
    end [updatePlayerFromZone]; [canPlay] is left alone. *)
Definition project_status (player : Player) (zone : Zone) : Player :=
  set_status_and_flags player (capitalize (state_token (state zone)))
    (is_next_allowed zone) (is_previous_allowed zone)
    (is_pause_allowed zone) (is_seek_allowed zone).

(** [updatePlayerFromZone(context)].  The source mutates the player of
    the context in place; the embedding returns the context as it is
    after the call, for the caller to store back in the registry.  When
    the call throws, the player has not been assigned to. *)
Definition updatePlayerFromZone (context : Context) : M Context :=
  let player := player context in
  let zone := zone context in
  player <-
    match now_playing zone with
    | Some now_playing =>
        let trackId := generateTrackId player (zone_id zone) now_playing in
        debug <- get_debug ;;
        when debug
          (console_log (LogDebugTrackId (display_name zone) trackId)) ;;;
        match build_metadata trackId zone (wsUrl context) now_playing with
        | Normal metadata => ret (set_metadata player metadata)
        | Throw e => throw e
        end
    | None => ret player
    end ;;
  ret (with_player context (project_status player zone)).

(** What [updatePlayerFromZone] returns, as a function of the context. *)
Definition projection (context : Context) : Outcome Context :=
  let player := player context in
  let zone := zone context in
  match now_playing zone with
  | Some now_playing =>
      let trackId := generateTrackId player (zone_id zone) now_playing in
      match build_metadata trackId zone (wsUrl context) now_playing with
      | Normal metadata =>
          Normal
            (with_player context
               (project_status (set_metadata player metadata) zone))
      | Throw e => Throw e
      end
  | None => Normal (with_player context (project_status player zone))
  end.

(** What [updatePlayerFromZone] prints. *)
Definition projection_log (debug : bool) (context : Context) : list Event :=
  match now_playing (zone context) with
  | Some now_playing =>
      if debug then
        [ConsoleLog
           (LogDebugTrackId (display_name (zone context))
              (generateTrackId (player context) (zone_id (zone context))
                 now_playing))]
      else []
  | None => []
  end.

(** [debugLogZone(label, zone)] *)
Definition debugLogZone (label : jsstring) (zone : Zone) : M unit :=
  debug <- get_debug ;;
  when debug (console_log (LogDebugZone label)).

(** What [debugLogZone] prints. *)
Definition debug_zone_log (debug : bool) (label : jsstring) : list Event :=
  if debug then [ConsoleLog (LogDebugZone label)] else [].

(** [createPlayerContext(zone, wsUrl)].  [setupPlayerEvents] binds the
    handlers below to the zone identifier. *)
Definition createPlayerContext (zone : Zone) (wsUrl : jsstring)
    : M Context :=
  let sanitizedName :=
    lit "roon_" ++ Sanitizer.sanitizeForDBus (display_name zone) in
  let identity := lit "Roon - " ++ display_name zone in
  id <- fresh_player ;;
  emit (PlayerNew id sanitizedName identity) ;;;
  ret {| player := new_Player id sanitizedName identity;
         zone := zone;
         sanitizedName := sanitizedName;
         wsUrl := wsUrl;
         lastReportedPosition := 0 |}.

(** What [createPlayerContext] returns for the player of identity [id]. *)
Definition created_context (id : nat) (zone : Zone) (wsUrl : jsstring)
    : Context :=
  let sanitizedName :=
    lit "roon_" ++ Sanitizer.sanitizeForDBus (display_name zone) in
  {| player :=
       new_Player id sanitizedName (lit "Roon - " ++ display_name zone);
     zone := zone;
     sanitizedName := sanitizedName;
     wsUrl := wsUrl;
     lastReportedPosition := 0 |}.

(** [destroyPlayerContext(context)] *)
Definition destroyPlayerContext (context : Context) : M unit :=
  when (has_bus (player context))
    (emit (BusDisconnect (player_id (player context)))).

(** *** The zone subscription callback, branch by branch *)

(** Body of the loop over [data.zones || data.zones_added || []]. *)
Definition add_zone (wsUrl : jsstring) (zone : Zone) : M unit :=
  debugLogZone (lit "New Zone: " ++ display_name zone) zone ;;;
  registry <- get_map ;;
  match registry !! zone_id zone with
  | Some _ => ret tt
  | None =>
      console_log (LogCreating (display_name zone)) ;;;
      context <- createPlayerContext zone wsUrl ;;
      modify_map (insert (zone_id zone) context) ;;;
      context <- updatePlayerFromZone context ;;
      modify_map (insert (zone_id zone) context)
  end.

(** [zone?.now_playing?.three_line?.line1] *)
Definition zone_track (zone : Zone) : option jsstring :=
  match now_playing zone with
  | Some now_playing => three_line now_playing ≫= line1
  | None => None
  end.

(** Body of the loop over [data.zones_changed]. *)
Definition change_zone (zone : Zone) : M unit :=
  registry <- get_map ;;
  match registry !! zone_id zone with
  | Some context =>
      let oldTrack := zone_track (snapshot context) in
      let newTrack := zone_track zone in
      when (negb (bool_decide (oldTrack = newTrack)))
        (debugLogZone (lit "Track Changed: " ++ display_name zone) zone) ;;;
      let context := with_zone context zone in
      modify_map (insert (zone_id zone) context) ;;;
      context <- updatePlayerFromZone context ;;
      modify_map (insert (zone_id zone) context)
  | None => ret tt
  end.

(** Body of the loop over [data.zones_removed]. *)
Definition remove_zone (zoneId : jsstring) : M unit :=
  registry <- get_map ;;
  match registry !! zoneId with
  | Some context =>
      console_log (LogRemoving (display_name (zone context))) ;;;
      destroyPlayerContext context ;;;
      modify_map (delete zoneId)
  | None => ret tt
  end.

(** The seek/progress decision of the loop over
    [data.zones_seek_changed]. *)
Definition isSeek (lastReported positionMicro : Z) : bool :=
  let expectedPosition := lastReported + 1500000 in
  let positionDelta := Z.abs (positionMicro - expectedPosition) in
  positionDelta >? 2000000.

(** Body of the loop over [data.zones_seek_changed]. *)
Definition seek_change (change : SeekChange) : M unit :=
  registry <- get_map ;;
  match registry !! chg_zone_id change with
  | Some context =>
      let positionMicro := chg_seek_position change * 1000000 in
      let isSeek := isSeek (lastReportedPosition context) positionMicro in
      let context := with_lastReportedPosition context positionMicro in
      let context :=
        with_player context (set_position (player context) positionMicro) in
      modify_map (insert (chg_zone_id change) context) ;;;
      when isSeek
        (console_log
           (LogDetectedSeek (display_name (zone context))
              (chg_seek_position change)) ;;;
         emit (PlayerSeeked (player_id (player context)) positionMicro))
  | None => ret tt
  end.

Definition onZonesAdded (zones : list Zone) (wsUrl : jsstring) : M unit :=
  for_of zones (add_zone wsUrl).
Definition onZonesChanged (zones : list Zone) : M unit :=
  for_of zones change_zone.
Definition onZonesRemoved (zoneIds : list jsstring) : M unit :=
  for_of zoneIds remove_zone.
Definition onZonesSeekChanged (entries : list SeekChange) : M unit :=
  for_of entries seek_change.

(** [if (list) for (...)]: an array, even an empty one, is truthy. *)
Definition if_present {A} (l : option (list A)) (body : list A -> M unit)
    : M unit :=
  match l with
  | Some l => body l
  | None => ret tt
  end.

(** The function given to [transport.subscribe_zones]. *)
Definition subscribe_zones_callback (data : Data) : M unit :=
  core <- get_core ;;
  match core ≫= ws_url with
  | None => ret tt
  | Some url =>
      let wsUrl := drop 5 url in
      let zonesToAdd :=
        match zones data, zones_added data with
        | Some l, _ => l
        | None, Some l => l
        | None, None => []
        end in
      onZonesAdded zonesToAdd wsUrl ;;;
      if_present (zones_changed data) onZonesChanged ;;;
      if_present (zones_removed data) onZonesRemoved ;;;
      if_present (zones_seek_changed data) onZonesSeekChanged
  end.

(** *** Handlers bound by [setupPlayerEvents(player, zoneId)] *)

Definition getPosition (zoneId : jsstring) (w : World) : Z :=
  match zonePlayerMap w !! zoneId with
  | Some context =>
      match now_playing (zone context) with
      | Some now_playing => seek_position now_playing * 1000 * 1000
      | None => 0
      end
  | None => 0
  end.

(** [playpause], [stop], [next], [previous] *)
Definition on_control (zoneId : jsstring) (eventName : Control) : M unit :=
  registry <- get_map ;;
  core <- get_core ;;
  match registry !! zoneId, core with
  | Some context, Some _ =>
      console_log (LogControl (display_name (zone context)) eventName) ;;;
      emit (TransportControl (zone context) eventName)
  | _, _ => ret tt
  end.

(** [seek]: relative seek by [offset] microseconds.  The completion
    callback given to the transport exists only once the call has been
    issued. *)
Definition on_seek (zoneId : jsstring) (offset : Z) : M unit :=
  registry <- get_map ;;
  core <- get_core ;;
  match registry !! zoneId, core with
  | Some context, Some _ =>
      if negb (allowed (is_seek_allowed (zone context))) then
        console_log (LogSeekNotAllowed (display_name (zone context)))
      else
        console_log
          (LogSeekRelative (display_name (zone context)) offset) ;;;
        emit (TransportSeek (zone context) relative offset)
  | context, _ =>
      console_log
        (LogSeekIgnored (display_name <$> (zone <$> context)))
  end.

(** [position]: absolute seek to [event.position] microseconds. *)
Definition on_position (zoneId : jsstring) (event_position : Z) : M unit :=
  registry <- get_map ;;
  core <- get_core ;;
  match registry !! zoneId, core with
  | Some context, Some _ =>
      if negb (allowed (is_seek_allowed (zone context))) then
        console_log (LogSeekNotAllowed (display_name (zone context)))
      else
        console_log
          (LogSeekAbsolute (display_name (zone context)) event_position) ;;;
        emit (TransportSeek (zone context) absolute event_position)
  | context, _ =>
      console_log
        (LogSetPositionIgnored
           (display_name <$> (zone <$> context)))
  end.

(** [raise], [pause], [play], [open], [volume], [loopStatus], [shuffle] *)
Definition on_unimplemented (zoneId : jsstring) (eventName : Unimplemented)
    : M unit :=
  registry <- get_map ;;
  console_log
    (LogNotImplemented
       (display_name <$> (zone <$> registry !! zoneId)) eventName).

Definition on_quit : M unit := console_log LogQuit.

End Engine.

(** ** The earlier [index.js] *)

(** [sanitizeForDBus], [getPosition] and the registry handling of the
    earlier file are the ones above, to the letter.  Its
    [updatePlayerFromZone] builds a smaller [metadata] object, without
    track identity or quality attributes. *)
Module IndexJs.

Record Metadata : Type := {
  mpris_length : Z;
  mpris_artUrl : jsstring;
  xesam_title : option jsstring;
  xesam_album : option jsstring;
  xesam_artist : list jsstring
}.

Definition build_metadata (wsUrl : jsstring) (now_playing : NowPlaying)
    : Outcome Metadata :=
  match three_line now_playing with
  | None => Throw (TypeError "now_playing.three_line.line1")
  | Some tl =>
      match line2 tl with
      | None => Throw (TypeError "now_playing.three_line.line2.split")
      | Some artists =>
          Normal
            {| mpris_length :=
                 match np_length now_playing with
                 | Some n => if n =? 0 then 0 else n * 1000 * 1000
                 | None => 0
                 end;
               mpris_artUrl :=
                 lit "http://" ++ wsUrl ++ lit "/image/"
                   ++ template (image_key now_playing);
               xesam_title := line1 tl;
               xesam_album := line3 tl;
               xesam_artist := split_artists artists |}
      end
  end.

End IndexJs.

(** ** The hash of the track identity, as the specification words it *)

(** A rolling hash over the code units of the string, order dependent:
    each step multiplies by 31 (a shift by five minus the value itself) and
    adds the code; the result is kept to 32 bits and read as unsigned. *)
Definition rolling_hash_spec (s : jsstring) : Z :=
  fold_left (fun h c => 31 * h + Z.of_N c) s 0 mod 2 ^ 32.

(** ** Sample data *)

(** The object paths of the player library in use:
    [/org/node/mediaplayer/<name>/<subpath>]. *)
Definition sample_objectPath (name subpath : jsstring) : jsstring :=
  lit "/org/node/mediaplayer/" ++ name ++ lit "/" ++ subpath.

Definition sample_three_line : ThreeLine :=
  {| line1 := Some (lit "Song");
     line2 := Some (lit "Artist A / Artist B");
     line3 := Some (lit "Album") |}.

Definition sample_now_playing (lines : option ThreeLine) : NowPlaying :=
  {| three_line := lines; np_length := Some 200; seek_position := 10;
     image_key := Some (lit "img1"); sample_rate := None; bit_depth := None;
     bitrate := None; format := None; media_format := None;
     source_type := None |}.

(** A record with no text at all: every line is the empty string. *)
Definition blank_now_playing : NowPlaying :=
  {| three_line :=
       Some {| line1 := Some []; line2 := Some []; line3 := Some [] |};
     np_length := None; seek_position := 0; image_key := None;
     sample_rate := None; bit_depth := None; bitrate := None; format := None;
     media_format := None; source_type := None |}.

Definition sample_zone (np : option NowPlaying) (seek : option bool) : Zone :=
  {| zone_id := lit "z1"; display_name := lit "Living Room";
     state := playing; now_playing := np; is_next_allowed := None;
     is_previous_allowed := None; is_pause_allowed := None;
     is_seek_allowed := seek; outputs := None |}.

(** The zone of the end-to-end example of the specification. *)
Definition living_room : Zone :=
  sample_zone (Some (sample_now_playing (Some sample_three_line))) None.

(** The same zone, its now-playing record lacking [three_line]. *)
Definition living_room_no_lines : Zone :=
  sample_zone (Some (sample_now_playing None)) None.

Definition sample_base : jsstring := lit "192.168.1.5:9100".

(** A paired engine that knows no zone yet. *)
Definition fresh_world : World :=
  {| core := Some {| ws_url := Some (lit "ws://192.168.1.5:9100") |};
     argv_debug := false; zonePlayerMap := ∅; players_made := 0;
     trace := [] |}.

Definition sample_player (pos : option Z) : Player :=
  let player :=
    new_Player 0 (lit "roon_Living_Room") (lit "Roon - Living Room") in
  match pos with
  | Some micros => set_position player micros
  | None => player
  end.

Definition sample_context (z : Zone) (last : Z) : Context :=
  {| player := sample_player None; zone := z;
     sanitizedName := lit "roon_Living_Room"; wsUrl := sample_base;
     lastReportedPosition := last |}.

(** A world whose only zone is [z], last reported at [last] microseconds. *)
Definition world_with (z : Zone) (last : Z) : World :=
  {| core := Some {| ws_url := Some (lit "ws://192.168.1.5:9100") |};
     argv_debug := false;
     zonePlayerMap := {[ zone_id z := sample_context z last ]};
     players_made := 1; trace := [] |}.

(** ** The event table of [setupPlayerEvents] *)

(** The events a player object delivers to the handlers registered with
    [player.on]. *)
Inductive PlayerEvent : Type :=
  | OnControl (eventName : Control)
  | OnSeek (offset : Z)
  | OnPosition (event_position : Z)
  | OnUnimplemented (eventName : Unimplemented)
  | OnQuit.

(** The handler [setupPlayerEvents(player, zoneId)] registered for the
    event. *)
Definition fire (zoneId : jsstring) (ev : PlayerEvent) : M unit :=
  match ev with
  | OnControl eventName => on_control zoneId eventName
  | OnSeek offset => on_seek zoneId offset
  | OnPosition event_position => on_position zoneId event_position
  | OnUnimplemented eventName => on_unimplemented zoneId eventName
  | OnQuit => on_quit
  end.

(** The seek request of a mode, as an event of the player. *)
Definition seek_event (mode : SeekMode) (micros : Z) : PlayerEvent :=
  match mode with
  | relative => OnSeek micros
  | absolute => OnPosition micros
  end.

Definition is_transport_call (e : Event) : bool :=
  match e with
  | TransportControl _ _ | TransportSeek _ _ _ => true
  | _ => false
  end.

(** ** Loss of the controller: [core_unpaired] *)

(** The argument [core_] of [core_unpaired], as far as it is printed. *)
Record LostCore : Type := {
  core_id : jsstring;
  lost_display_name : jsstring;
  lost_display_version : jsstring
}.

(** The console output of [core_unpaired], in order. *)
Inductive TeardownLine : Type :=
  | LineLost (core_ : LostCore)
  | LineDestroying (display : jsstring).

Definition by_player_id (a b : jsstring * Context) : Prop :=
  (player_id (player a.2) <= player_id (player b.2))%nat.

#[global] Instance by_player_id_dec (a b : jsstring * Context) :
  Decision (by_player_id a b).
Proof. unfold by_player_id. apply _. Defined.

(** [for (const [zoneId, context] of zonePlayerMap)]: a [Map] is visited in
    insertion order.  An entry enters the registry right after its player
    is constructed and is never inserted again while it stays, so that is
    the order of the identities of the players. *)
Definition registry_entries (registry : gmap jsstring Context)
    : list (jsstring * Context) :=
  merge_sort by_player_id (map_to_list registry).

(** [core_unpaired(core_)]: the players are destroyed, the registry is
    cleared and [core] becomes [undefined].  The lines printed are
    returned beside the world. *)
Definition core_unpaired (core_ : LostCore) (w : World)
    : list TeardownLine * World :=
  let entries := registry_entries (zonePlayerMap w) in
  let printed :=
    LineLost core_
      :: map (fun e => LineDestroying (display_name (zone e.2))) entries in
  let w' := snd (for_of entries (fun e => destroyPlayerContext e.2) w) in
  (printed,
   {| core := None; argv_debug := argv_debug w'; zonePlayerMap := ∅;
      players_made := players_made w'; trace := trace w' |}).

(** ** Notions used to state properties *)

(** Artists joined the way the transport presents them. *)
Fixpoint join_artists (artists : list jsstring) : jsstring :=
  match artists with
  | [] => []
  | [artist] => artist
  | artist :: rest => artist ++ lit " / " ++ join_artists rest
  end.

(** An artist name that the split leaves whole: not empty, without a
    slash, with no white space at either end. *)
Definition clean_artist (artist : jsstring) : bool :=
  forallb (fun c => negb (c =? 47)%N) artist
  && match artist with
     | c :: _ => negb (is_space c)
     | [] => false
     end
  && match last artist with
     | Some c => negb (is_space c)
     | None => false
     end.

(** The two halves of that, for the tail of a name. *)
Definition no_slash (s : jsstring) : bool :=
  forallb (fun c => negb (c =? 47)%N) s.

Definition ends_unspaced (s : jsstring) : Prop :=
  s <> [] -> exists c, last s = Some c /\ is_space c = false.

(** No slash of [s] stands between two white-space characters. *)
Definition no_spaced_slash (s : jsstring) : Prop :=
  forall before c1 c2 after,
    s = before ++ c1 :: 47%N :: c2 :: after ->
    is_space c1 && is_space c2 = false.

(** What holds of every entry of the registry of an engine that started
    empty: it is filed under the identifier of its snapshot, its player was
    constructed by the engine, is connected to the bus and bears the
    sanitized name of the context, which is [roon_] followed by a valid
    name. *)
Definition context_ok (made : nat) (key : jsstring) (c : Context) : bool :=
  bool_decide (zone_id (zone c) = key)
  && bool_decide (player_id (player c) < made)%nat
  && has_bus (player c)
  && bool_decide (name (player c) = sanitizedName c)
  && bool_decide (take 5 (sanitizedName c) = lit "roon_")
  && Sanitizer.matches_dbus_name (drop 5 (sanitizedName c))
  && negb (Sanitizer.starts_with_digit (drop 5 (sanitizedName c))).

Definition player_ids (registry : gmap jsstring Context) : list nat :=
  map (fun e => player_id (player e.2)) (map_to_list registry).

Definition well_formed (w : World) : Prop :=
  map_Forall (fun key c => context_ok (players_made w) key c = true)
    (zonePlayerMap w)
  /\ NoDup (player_ids (zonePlayerMap w)).

Definition is_disconnect (e : Event) : bool :=
  match e with
  | BusDisconnect _ => true
  | _ => false
  end.

Definition is_player_new (e : Event) : bool :=
  match e with
  | PlayerNew _ _ _ => true
  | _ => false
  end.

(** Every player constructed so far is registered or was disconnected. *)
Definition accounted (w : World) : Prop :=
  length (List.filter is_player_new (trace w)) = players_made w
  /\ players_made w
     = (size (zonePlayerMap w)
        + length (List.filter is_disconnect (trace w)))%nat.

(** The world [w] with another registry and count of players, after
    further events. *)
Definition world_after (w : World) (registry : gmap jsstring Context)
    (made : nat) (events : list Event) : World :=
  {| core := core w; argv_debug := argv_debug w; zonePlayerMap := registry;
     players_made := made; trace := trace w ++ events |}.

(** What a projection leaves alone in a context: everything but the
    snapshot and the metadata, status and flags of the player. *)
Definition same_frame (c c' : Context) : Prop :=
  sanitizedName c' = sanitizedName c
  /\ wsUrl c' = wsUrl c
  /\ lastReportedPosition c' = lastReportedPosition c
  /\ player_id (player c') = player_id (player c)
  /\ name (player c') = name (player c)
  /\ identity (player c') = identity (player c)
  /\ has_bus (player c') = has_bus (player c)
  /\ position (player c') = position (player c).

(** The player shows the status and the capabilities of the zone. *)
Definition shows_status (z : Zone) (p : Player) : Prop :=
  playbackStatus p = Some (capitalize (state_token (state z)))
  /\ canGoNext p = is_next_allowed z
  /\ canGoPrevious p = is_previous_allowed z
  /\ canPause p = is_pause_allowed z
  /\ canSeek p = is_seek_allowed z.

(** The events that are not console output. *)
Definition effects (events : list Event) : list Event :=
  List.filter (fun e => negb (is_log e)) events.

(** What identifies the player of a context on the bus. *)
Definition same_identity (c c' : Context) : Prop :=
  sanitizedName c' = sanitizedName c
  /\ player_id (player c') = player_id (player c)
  /\ name (player c') = name (player c)
  /\ has_bus (player c') = has_bus (player c).

(** ** The engine at work *)

(** What reaches the engine: a batch of the zone subscription, an event of
    the player of a zone, the loss of the controller. *)
Inductive Input : Type :=
  | Batch (data : Data)
  | Request (zoneId : jsstring) (ev : PlayerEvent)
  | Lost (core_ : LostCore).

Section Run.

Variable objectPath : jsstring -> jsstring -> jsstring.

(** The world the callback registered for the input leaves, whether it
    returns or throws; the mutations made before an exception stay. *)
Definition step (w : World) (input : Input) : World :=
  match input with
  | Batch data => snd (subscribe_zones_callback objectPath data w)
  | Request zoneId ev => snd (fire zoneId ev w)
  | Lost core_ => snd (core_unpaired core_ w)
  end.

Definition run (inputs : list Input) (w : World) : World :=
  fold_left step inputs w.

End Run.

(** An engine that has not seen any zone yet. *)
Definition pristine (w : World) : Prop :=
  zonePlayerMap w = ∅ /\ players_made w = O /\ trace w = [].

(** The step from [w] to [w'] left the controller and the options alone,
    constructed players at most and added events none of which is a call
    to the transport. *)
Definition extends (w w' : World) : Prop :=
  core w' = core w
  /\ argv_debug w' = argv_debug w
  /\ (players_made w <= players_made w')%nat
  /\ exists new,
       trace w' = trace w ++ new
       /\ forallb (fun e => negb (is_transport_call e)) new = true.

(** A zone whose projection does not throw: it has no now-playing record,
    or one with [three_line] and its [line2]. *)
Definition projects (z : Zone) : bool :=
  match now_playing z with
  | None => true
  | Some np =>
      match three_line np with
      | Some lines =>
          match line2 lines with
          | Some _ => true
          | None => false
          end
      | None => false
      end
  end.

(** ** The settings service *)

Module Settings.

Section WithValues.

(** The settings object of the controller; the bridge stores it and hands
    it back without looking inside. *)
Variable V : Type.

Record LayoutItem : Type := { item_type : jsstring; item_title : jsstring }.

Record Layout : Type := {
  values : V;
  layout : list LayoutItem;
  has_error : bool
}.

Definition makelayout (settings : V) : Layout :=
  {| values := settings;
     layout :=
       [{| item_type := lit "label";
           item_title :=
             lit "All Roon zones are automatically exposed as MPRIS players."
        |}];
     has_error := false |}.

(** What [save_settings] does to its collaborators, in order. *)
Inductive Effect : Type :=
  | SendComplete (status : jsstring) (settings : Layout)
  | UpdateSettings (settings : Layout)
  | SaveConfig (key : jsstring) (stored : V).

(** [get_settings(cb)]: the layout handed to [cb]. *)
Definition get_settings (mysettings : V) : Layout := makelayout mysettings.

(** [save_settings(req, isdryrun, settings)] with [settings.values =
    submitted]: the effects and the new value of [mysettings]. *)
Definition save_settings (isdryrun : bool) (submitted : V) (mysettings : V)
    : list Effect * V :=
  let l := makelayout submitted in
  let reply :=
    SendComplete (if has_error l then lit "NotValid" else lit "Success") l in
  if negb isdryrun && negb (has_error l) then
    ([reply; UpdateSettings l; SaveConfig (lit "settings") (values l)],
     values l)
  else ([reply], mysettings).

(** A series of saves, each a dry-run flag and the values submitted. *)
Fixpoint save_all (saves : list (bool * V)) (mysettings : V)
    : list Effect * V :=
  match saves with
  | [] => ([], mysettings)
  | (isdryrun, submitted) :: rest =>
      let (done, mysettings) := save_settings isdryrun submitted mysettings in
      let (more, mysettings) := save_all rest mysettings in
      (done ++ more, mysettings)
  end.

(** The values of the last save that was not a dry run. *)
Definition last_saved (saves : list (bool * V)) : option V :=
  last (map snd (List.filter (fun s => negb (fst s)) saves)).

(** What [roon.save_config] was last given under the key [settings]. *)
Definition stored_config (done : list Effect) : option V :=
  last (omap (fun e =>
                match e with
                | SaveConfig _ stored => Some stored
                | _ => None
                end) done).

Definition is_reply (e : Effect) : bool :=
  match e with
  | SendComplete _ _ => true
  | _ => false
  end.

End WithValues.

End Settings.

(** * Properties *)

(** ** Name sanitizer *)

Module SanitizerFacts.
Import Sanitizer.

Lemma replace_disallowed_allowed (s : jsstring) :
  forallb dbus_allowed (replace_disallowed s) = true.
Proof.
  induction s as [|c s IH]; [reflexivity|].
  cbn [replace_disallowed map forallb].
  apply andb_true_iff; split; [|exact IH].
  destruct (dbus_allowed c) eqn:Hc; [exact Hc | reflexivity].
Qed.

(** The three outcomes of the function, one per path of the source. *)
Lemma sanitizeForDBus_cases (displayName : jsstring) :
  let s := replace_disallowed displayName in
  (starts_with_digit s = true
     /\ sanitizeForDBus displayName = lit "zone_" ++ s)
  \/ (s = [] /\ sanitizeForDBus displayName = lit "unnamed_zone")
  \/ (s <> [] /\ starts_with_digit s = false
        /\ sanitizeForDBus displayName = s).
Proof.
  intros s. unfold sanitizeForDBus. fold s.
  destruct (starts_with_digit s) eqn:Hd.
  - left. split; reflexivity.
  - right. destruct s as [|c s'] eqn:Hs.
    + left. split; reflexivity.
    + right. repeat split; congruence.
Qed.

End SanitizerFacts.

(** C3. For every display name, the sanitizer returns a string that matches
    [^[A-Za-z0-9_-]+$], is not empty and does not begin with a digit.  The
    function is total: no input makes it throw. *)
Theorem sanitizeForDBus_valid (displayName : jsstring) :
  Sanitizer.matches_dbus_name (Sanitizer.sanitizeForDBus displayName) = true
  /\ Sanitizer.sanitizeForDBus displayName <> []
  /\ Sanitizer.starts_with_digit (Sanitizer.sanitizeForDBus displayName)
     = false.
Proof.
  pose proof (SanitizerFacts.replace_disallowed_allowed displayName) as Hall.
  destruct (SanitizerFacts.sanitizeForDBus_cases displayName)
    as [[Hd ->] | [[Hs ->] | (Hne & Hd & ->)]].
  - repeat split; [|discriminate].
    change (forallb Sanitizer.dbus_allowed
              (lit "zone_" ++ Sanitizer.replace_disallowed displayName) = true).
    rewrite forallb_app, Hall. reflexivity.
  - repeat split; discriminate.
  - repeat split; [|exact Hne|exact Hd].
    destruct (Sanitizer.replace_disallowed displayName) as [|c s];
      [congruence | exact Hall].
Qed.

(** ** 32-bit arithmetic and hexadecimal rendering *)

Module Int32Facts.
Import Int32.

Lemma ToInt32_range (z : Z) : - 2 ^ 31 <= ToInt32 z < 2 ^ 31.
Proof.
  unfold ToInt32. pose proof (Z.mod_pos_bound (z + 2 ^ 31) (2 ^ 32)). lia.
Qed.

Lemma ToInt32_congr (z : Z) : ToInt32 z mod 2 ^ 32 = z mod 2 ^ 32.
Proof.
  unfold ToInt32.
  rewrite Zminus_mod, Zmod_mod, <- Zminus_mod.
  f_equal. lia.
Qed.

Lemma ToInt32_small (z : Z) : - 2 ^ 31 <= z < 2 ^ 31 -> ToInt32 z = z.
Proof. intros H. unfold ToInt32. rewrite Z.mod_small; lia. Qed.

Lemma and_diag (a : Z) : and a a = ToInt32 a.
Proof.
  unfold and. rewrite Z.land_diag.
  apply ToInt32_small, ToInt32_range.
Qed.

Lemma shl_5_congr (a : Z) : shl a 5 mod 2 ^ 32 = (32 * a) mod 2 ^ 32.
Proof.
  unfold shl. change (ToUint32 5 mod 32) with 5.
  rewrite ToInt32_congr, Z.shiftl_mul_pow2 by lia.
  change (2 ^ 5) with 32.
  rewrite Zmult_mod, ToInt32_congr, <- Zmult_mod. f_equal. lia.
Qed.

Lemma ushr_0 (a : Z) : ushr a 0 = ToUint32 a.
Proof.
  unfold ushr. change (ToUint32 0 mod 32) with 0.
  rewrite Z.shiftr_0_r. unfold ToUint32. apply Zmod_mod.
Qed.

(** *** [toString(16)] *)

Lemma hex_digit_value_digit (d : Z) :
  0 <= d < 16 -> hex_digit_value (hex_digit d) = d.
Proof.
  intros H. unfold hex_digit, hex_digit_value, is_digit, in_range.
  destruct (Z.ltb_spec d 10).
  - rewrite Z2N.id by lia.
    replace ((48 <=? Z.to_N (48 + d))%N && (Z.to_N (48 + d) <=? 57)%N)
      with true; [lia|].
    symmetry. apply andb_true_iff. split; apply N.leb_le; lia.
  - rewrite Z2N.id by lia.
    replace ((48 <=? Z.to_N (97 + (d - 10)))%N
             && (Z.to_N (97 + (d - 10)) <=? 57)%N) with false; [lia|].
    symmetry. apply andb_false_iff. right. apply N.leb_gt. lia.
Qed.

Lemma hex_digit_is_hex (d : Z) :
  0 <= d < 16 -> is_hex_digit (hex_digit d) = true.
Proof.
  intros H. unfold hex_digit, is_hex_digit, is_digit, in_range.
  apply orb_true_iff.
  destruct (Z.ltb_spec d 10); [left | right];
    apply andb_true_iff; split; apply N.leb_le; lia.
Qed.

Lemma hex_digits_acc (fuel : nat) (n : Z) (acc : jsstring) :
  hex_digits fuel n acc = hex_digits fuel n [] ++ acc.
Proof.
  revert n acc. induction fuel as [|fuel IH]; intros n acc; [reflexivity|].
  cbn [hex_digits]. destruct (n / 16 =? 0); [reflexivity|].
  rewrite (IH _ (_ :: acc)), (IH _ [_]), <- app_assoc. reflexivity.
Qed.

Lemma hex_value_snoc (s : jsstring) (c : N) :
  hex_value (s ++ [c]) = 16 * hex_value s + hex_digit_value c.
Proof. unfold hex_value. rewrite fold_left_app. reflexivity. Qed.

(** With enough fuel the digits denote the number. *)
Lemma hex_digits_value (fuel : nat) (n : Z) :
  0 <= n < 2 ^ Z.of_nat fuel -> hex_value (hex_digits fuel n []) = n.
Proof.
  revert n. induction fuel as [|fuel IH]; intros n Hn.
  - change (2 ^ Z.of_nat 0) with 1 in Hn. assert (n = 0) as -> by lia.
    reflexivity.
  - cbn [hex_digits].
    pose proof (Z.mod_pos_bound n 16 ltac:(lia)) as Hd.
    pose proof (Z.div_mod n 16 ltac:(lia)) as Hdm.
    destruct (Z.eqb_spec (n / 16) 0) as [Hq|Hq].
    + change (hex_value [hex_digit (n mod 16)])
        with (16 * 0 + hex_digit_value (hex_digit (n mod 16))).
      rewrite hex_digit_value_digit by lia. lia.
    + rewrite hex_digits_acc, hex_value_snoc, hex_digit_value_digit by lia.
      rewrite IH; [lia|].
      rewrite Nat2Z.inj_succ, Z.pow_succ_r in Hn by lia.
      split; [apply Z.div_pos; lia|].
      apply Z.div_lt_upper_bound; lia.
Qed.

Lemma hex_digits_all_hex (fuel : nat) (n : Z) :
  forallb is_hex_digit (hex_digits fuel n []) = true.
Proof.
  revert n. induction fuel as [|fuel IH]; intros n; [reflexivity|].
  cbn [hex_digits].
  pose proof (Z.mod_pos_bound n 16 ltac:(lia)) as Hd.
  destruct (n / 16 =? 0).
  - cbn [forallb]. rewrite hex_digit_is_hex by lia. reflexivity.
  - rewrite hex_digits_acc, forallb_app, IH. cbn [forallb].
    rewrite hex_digit_is_hex by lia. reflexivity.
Qed.

Lemma hex_digits_length (fuel k : nat) (n : Z) :
  0 <= n < 16 ^ Z.of_nat (S k) ->
  (1 <= length (hex_digits (S fuel) n []) <= S k)%nat.
Proof.
  revert k n. induction fuel as [|fuel IH]; intros k n Hn.
  - cbn [hex_digits]. destruct (n / 16 =? 0); cbn [length]; lia.
  - remember (S fuel) as f. cbn [hex_digits].
    destruct (Z.eqb_spec (n / 16) 0) as [Hq|Hq]; [cbn [length]; lia|].
    rewrite hex_digits_acc, length_app. cbn [length]. subst f.
    destruct k as [|k].
    + change (16 ^ Z.of_nat 1) with 16 in Hn.
      rewrite Z.div_small in Hq by lia. congruence.
    + specialize (IH k (n / 16)).
      rewrite (Nat2Z.inj_succ (S k)), Z.pow_succ_r in Hn by lia.
      assert (0 <= n / 16 < 16 ^ Z.of_nat (S k)) as Hdiv.
      { split; [apply Z.div_pos; lia|].
        apply Z.div_lt_upper_bound; lia. }
      specialize (IH Hdiv). lia.
Qed.

Lemma toString16_value (n : Z) : 0 <= n -> hex_value (toString16 n) = n.
Proof.
  intros Hn. unfold toString16. apply hex_digits_value.
  split; [exact Hn|].
  destruct (Z.eq_dec n 0) as [->|Hnz]; [reflexivity|].
  rewrite Nat2Z.inj_succ, Z2Nat.id by apply Z.log2_nonneg.
  apply Z.log2_spec. lia.
Qed.

Lemma toString16_length (n : Z) :
  0 <= n < 2 ^ 32 -> (1 <= length (toString16 n) <= 8)%nat.
Proof. intros Hn. unfold toString16. apply hex_digits_length. exact Hn. Qed.

Lemma toString16_all_hex (n : Z) :
  forallb is_hex_digit (toString16 n) = true.
Proof. apply hex_digits_all_hex. Qed.

(** No leading zero: the first digit is that of the leading group of four
    bits. *)
Lemma hex_digit_nonzero (d : Z) : 0 < d < 16 -> hex_digit d <> 48%N.
Proof.
  intros H. unfold hex_digit. destruct (Z.ltb_spec d 10); lia.
Qed.

Lemma hex_digits_head (fuel : nat) (n : Z) :
  0 < n < 2 ^ Z.of_nat fuel ->
  exists c rest, hex_digits fuel n [] = c :: rest /\ c <> 48%N.
Proof.
  revert n. induction fuel as [|fuel IH]; intros n Hn.
  - change (2 ^ Z.of_nat 0) with 1 in Hn. lia.
  - cbn [hex_digits].
    pose proof (Z.div_mod n 16 ltac:(lia)) as Hdm.
    pose proof (Z.mod_pos_bound n 16 ltac:(lia)) as Hd.
    destruct (Z.eqb_spec (n / 16) 0) as [Hq|Hq].
    + eexists _, _. split; [reflexivity|]. apply hex_digit_nonzero. lia.
    + rewrite hex_digits_acc.
      rewrite Nat2Z.inj_succ, Z.pow_succ_r in Hn by lia.
      destruct (IH (n / 16)) as (c & rest & -> & Hc).
      { assert (0 <= n / 16) by (apply Z.div_pos; lia).
        split; [lia|]. apply Z.div_lt_upper_bound; lia. }
      exists c, (rest ++ [hex_digit (n mod 16)]). split; [reflexivity|exact Hc].
Qed.

Lemma toString16_no_padding (n : Z) :
  0 <= n ->
  toString16 n = lit "0"
  \/ exists c rest, toString16 n = c :: rest /\ c <> 48%N.
Proof.
  intros Hn. destruct (Z.eq_dec n 0) as [->|Hnz]; [left; reflexivity|].
  right. unfold toString16. apply hex_digits_head.
  rewrite Nat2Z.inj_succ, Z2Nat.id by apply Z.log2_nonneg.
  split; [lia|]. apply Z.log2_spec. lia.
Qed.

End Int32Facts.

(** ** Track identity *)

Section TrackIdentity.

Variable objectPath : jsstring -> jsstring -> jsstring.

(** One turn of the loop is a multiplication by 31 and an addition,
    modulo [2^32]. *)
Lemma hash_step_congr (h h' : Z) (c : N) :
  h mod 2 ^ 32 = h' mod 2 ^ 32 ->
  hash_step h c mod 2 ^ 32 = (31 * h' + Z.of_N c) mod 2 ^ 32.
Proof.
  intros Hh. unfold hash_step.
  rewrite Int32Facts.and_diag, Int32Facts.ToInt32_congr.
  rewrite Zplus_mod, Zminus_mod, Int32Facts.shl_5_congr.
  rewrite (Zmult_mod 32 h), Hh, <- Zmult_mod, <- Zminus_mod, <- Zplus_mod.
  f_equal. lia.
Qed.

Lemma hash_loop_congr (s : jsstring) (h h' : Z) :
  h mod 2 ^ 32 = h' mod 2 ^ 32 ->
  fold_left hash_step s h mod 2 ^ 32
  = fold_left (fun h c => 31 * h + Z.of_N c) s h' mod 2 ^ 32.
Proof.
  revert h h'. induction s as [|c s IH]; intros h h' Hh; [exact Hh|].
  cbn [fold_left]. apply IH, hash_step_congr, Hh.
Qed.

(** The loop of the source computes the hash of the specification. *)
Lemma track_hash_unsigned (nowPlaying : NowPlaying) :
  Int32.ushr (track_hash nowPlaying) 0
  = rolling_hash_spec (track_combined nowPlaying).
Proof.
  rewrite Int32Facts.ushr_0. unfold Int32.ToUint32, track_hash.
  apply hash_loop_congr. reflexivity.
Qed.

Lemma rolling_hash_spec_range (s : jsstring) :
  0 <= rolling_hash_spec s < 2 ^ 32.
Proof. unfold rolling_hash_spec. apply Z.mod_pos_bound. lia. Qed.

(** C5. The identity token is a function of the zone identifier and of the
    title, artist and album alone (and of the name the zone's player was
    given at its creation): two calls that agree on them return the same
    token, whatever the rest of the now-playing record and the state of
    the player.  The function takes no other input: it reads neither the
    world nor a clock or counter. *)
Theorem generateTrackId_deterministic
    (player1 player2 : Player) (zoneId : jsstring)
    (nowPlaying1 nowPlaying2 : NowPlaying) :
  name player1 = name player2 ->
  track_title nowPlaying1 = track_title nowPlaying2 ->
  track_artist nowPlaying1 = track_artist nowPlaying2 ->
  track_album nowPlaying1 = track_album nowPlaying2 ->
  generateTrackId objectPath player1 zoneId nowPlaying1
  = generateTrackId objectPath player2 zoneId nowPlaying2.
Proof.
  intros Hname Htitle Hartist Halbum.
  unfold generateTrackId, track_hashStr, track_hash, track_combined.
  congruence.
Qed.

(** C6, amended. The generator joins title, artist and album with the
    delimiter [|], computes the rolling hash of the result (times 31 plus
    the character code at each step, modulo [2^32], read as an unsigned
    32-bit number), renders it in hexadecimal without padding (lower-case
    digits denoting the hash, between one and eight of them, the first
    one not [0] unless the hash is zero) and combines it with the zone
    identifier into the path [track/<zone>_<hex>] under the player. *)
Theorem generateTrackId_algorithm
    (player : Player) (zoneId : jsstring) (nowPlaying : NowPlaying) :
  let combined :=
    track_title nowPlaying ++ lit "|" ++ track_artist nowPlaying
      ++ lit "|" ++ track_album nowPlaying in
  let hashStr := Int32.toString16 (rolling_hash_spec combined) in
  generateTrackId objectPath player zoneId nowPlaying
  = objectPath (name player) (lit "track/" ++ zoneId ++ lit "_" ++ hashStr)
  /\ Int32.hex_value hashStr = rolling_hash_spec combined
  /\ forallb Int32.is_hex_digit hashStr = true
  /\ (1 <= length hashStr <= 8)%nat
  /\ (hashStr = lit "0"
      \/ exists c rest, hashStr = c :: rest /\ c <> 48%N).
Proof.
  intros combined hashStr.
  pose proof (rolling_hash_spec_range combined) as Hrange.
  split; [|split; [|split; [|split]]].
  - unfold generateTrackId, track_hashStr.
    rewrite track_hash_unsigned. reflexivity.
  - apply Int32Facts.toString16_value. lia.
  - apply Int32Facts.toString16_all_hex.
  - apply Int32Facts.toString16_length. exact Hrange.
  - apply Int32Facts.toString16_no_padding. lia.
Qed.

End TrackIdentity.

Lemma generateTrackId_deterministic_witness :
  generateTrackId sample_objectPath (sample_player None) (lit "z1")
    blank_now_playing
  = generateTrackId sample_objectPath (sample_player (Some 5000000))
      (lit "z1") (sample_now_playing None).
Proof. apply generateTrackId_deterministic; reflexivity. Defined.

(** C6, as stated: the hexadecimal rendering has no fixed width.  The
    record without text hashes to [f80], the sample track to [9c43b1be].
    The latter is the unsigned reading of the negative 32-bit value
    -1673285186, not the rendering of its magnitude. *)
Lemma track_hashStr_not_fixed_width :
  (~ exists width : nat,
       forall nowPlaying, length (track_hashStr nowPlaying) = width)
  /\ track_hashStr blank_now_playing = lit "f80"
  /\ track_hashStr (sample_now_playing (Some sample_three_line))
     = lit "9c43b1be"
  /\ track_hash (sample_now_playing (Some sample_three_line)) = -1673285186
  /\ Int32.toString16 1673285186 = lit "63bc4e42".
Proof.
  split; [|repeat split; vm_compute; reflexivity].
  intros [width H].
  pose proof (H blank_now_playing) as H3.
  pose proof (H (sample_now_playing (Some sample_three_line))) as H8.
  vm_compute in H3, H8. congruence.
Qed.

(** ** Seek and progress *)

(** Unfolding of the handler monad. *)
Ltac run_handler :=
  unfold bind, ret, throw, when, console_log, emit, log_events, get_map,
    get_core, get_debug, modify_map, fresh_player; cbn beta iota.

(** C1. A seek-changed entry for a known zone: with the reported position
    in microseconds, [expected] the last reported position plus 1500000
    and [delta] the distance between the two, the entry always stores the
    new position as last reported position and on the player object, and
    it emits the seeked notification exactly when [delta] exceeds 2000000;
    nothing else changes. *)
Theorem seek_change_classifier
    (w : World) (change : SeekChange) (context : Context) :
  zonePlayerMap w !! chg_zone_id change = Some context ->
  let newPositionMicros := chg_seek_position change * 1000000 in
  let expected := lastReportedPosition context + 1500000 in
  let delta := Z.abs (newPositionMicros - expected) in
  exists (context' : Context) (emitted : list Event),
    onZonesSeekChanged [change] w
    = (Normal tt,
       {| core := core w; argv_debug := argv_debug w;
          zonePlayerMap :=
            <[chg_zone_id change := context']> (zonePlayerMap w);
          players_made := players_made w;
          trace := trace w ++ emitted |})
    /\ lastReportedPosition context' = newPositionMicros
    /\ position (player context') = Some newPositionMicros
    /\ player_id (player context') = player_id (player context)
    /\ zone context' = zone context
    /\ (2000000 < delta ->
        emitted
        = [ConsoleLog
             (LogDetectedSeek (display_name (zone context))
                (chg_seek_position change));
           PlayerSeeked (player_id (player context)) newPositionMicros])
    /\ (delta <= 2000000 -> emitted = []).
Proof.
  intros Hknown newPositionMicros expected delta.
  exists (with_player
            (with_lastReportedPosition context newPositionMicros)
            (set_position (player context) newPositionMicros)).
  destruct (isSeek (lastReportedPosition context) newPositionMicros) eqn:Hseek.
  - eexists. split; [|do 4 (split; [reflexivity|]); split].
    + unfold onZonesSeekChanged, for_of, seek_change. run_handler.
      rewrite Hknown. fold newPositionMicros. rewrite Hseek. cbn.
      rewrite <- app_assoc. reflexivity.
    + reflexivity.
    + unfold isSeek in Hseek. fold newPositionMicros expected delta in Hseek.
      intros Hle. apply Z.gtb_lt in Hseek. lia.
  - exists []. split; [|do 4 (split; [reflexivity|]); split].
    + unfold onZonesSeekChanged, for_of, seek_change. run_handler.
      rewrite Hknown. fold newPositionMicros. rewrite Hseek. cbn.
      rewrite app_nil_r. reflexivity.
    + unfold isSeek in Hseek. fold newPositionMicros expected delta in Hseek.
      intros Hgt. rewrite Z.gtb_ltb in Hseek. apply Z.ltb_ge in Hseek. lia.
    + reflexivity.
Qed.

(** The two reports of the specification, after a last reported position
    of 10000000: 11 seconds is progress, 30 seconds is a seek. *)
Lemma seek_change_classifier_witness :
  trace (snd (onZonesSeekChanged
                [{| chg_zone_id := lit "z1"; chg_seek_position := 11 |}]
                (world_with living_room 10000000)))
  = []
  /\ trace (snd (onZonesSeekChanged
                   [{| chg_zone_id := lit "z1"; chg_seek_position := 30 |}]
                   (world_with living_room 10000000)))
     = [ConsoleLog (LogDetectedSeek (lit "Living Room") 30);
        PlayerSeeked 0%nat 30000000].
Proof.
  split.
  - destruct (seek_change_classifier (world_with living_room 10000000)
                {| chg_zone_id := lit "z1"; chg_seek_position := 11 |}
                (sample_context living_room 10000000) eq_refl)
      as (c & evs & -> & _ & _ & _ & _ & _ & Hprogress).
    rewrite Hprogress; [reflexivity | vm_compute; discriminate].
  - destruct (seek_change_classifier (world_with living_room 10000000)
                {| chg_zone_id := lit "z1"; chg_seek_position := 30 |}
                (sample_context living_room 10000000) eq_refl)
      as (c & evs & -> & _ & _ & _ & _ & Hseek & _).
    rewrite Hseek; [reflexivity | reflexivity].
Defined.

(** ** The registry and the projection *)

Lemma log_events_nil (w : World) : log_events w [] = w.
Proof. destruct w. unfold log_events. cbn. rewrite app_nil_r. reflexivity. Qed.

Section Projection.

Variable objectPath : jsstring -> jsstring -> jsstring.

Lemma debugLogZone_eq (label : jsstring) (zone : Zone) (w : World) :
  debugLogZone label zone w
  = (Normal tt, log_events w (debug_zone_log (argv_debug w) label)).
Proof.
  unfold debugLogZone, debug_zone_log, bind, get_debug, when, console_log,
    emit, ret.
  destruct (argv_debug w); [reflexivity|].
  rewrite log_events_nil. reflexivity.
Qed.

(** [updatePlayerFromZone] only prints; its result is [projection]. *)
Lemma updatePlayerFromZone_eq (context : Context) (w : World) :
  updatePlayerFromZone objectPath context w
  = (projection objectPath context,
     log_events w (projection_log objectPath (argv_debug w) context)).
Proof.
  unfold updatePlayerFromZone, projection, projection_log.
  destruct (now_playing (zone context)) as [np|].
  - unfold bind at 1. unfold bind at 1. unfold get_debug at 1.
    unfold when, console_log, emit, ret, throw.
    destruct (argv_debug w) eqn:Hd.
    + cbn. destruct (build_metadata _ _ _ _); reflexivity.
    + cbn. rewrite log_events_nil.
      destruct (build_metadata _ _ _ _); reflexivity.
  - unfold bind, ret. rewrite log_events_nil. reflexivity.
Qed.

Lemma createPlayerContext_eq (zone : Zone) (wsUrl : jsstring) (w : World) :
  createPlayerContext zone wsUrl w
  = (Normal (created_context (players_made w) zone wsUrl),
     {| core := core w; argv_debug := argv_debug w;
        zonePlayerMap := zonePlayerMap w;
        players_made := S (players_made w);
        trace :=
          trace w
            ++ [PlayerNew (players_made w)
                  (lit "roon_"
                     ++ Sanitizer.sanitizeForDBus (display_name zone))
                  (lit "Roon - " ++ display_name zone)] |}).
Proof. reflexivity. Qed.

(** The add branch on a zone the registry already holds. *)
Lemma add_zone_known (wsUrl : jsstring) (zone : Zone) (w : World)
    (context : Context) :
  zonePlayerMap w !! zone_id zone = Some context ->
  add_zone objectPath wsUrl zone w
  = (Normal tt,
     log_events w
       (debug_zone_log (argv_debug w)
          (lit "New Zone: " ++ display_name zone))).
Proof.
  intros Hknown. unfold add_zone. unfold bind at 1.
  rewrite debugLogZone_eq. unfold bind at 1, get_map at 1.
  cbn [zonePlayerMap log_events]. rewrite Hknown. reflexivity.
Qed.

(** The add branch on a zone the registry does not hold. *)
Lemma add_zone_unknown (wsUrl : jsstring) (zone : Zone) (w : World) :
  zonePlayerMap w !! zone_id zone = None ->
  let created := created_context (players_made w) zone wsUrl in
  add_zone objectPath wsUrl zone w
  = (match projection objectPath created with
     | Normal _ => Normal tt
     | Throw e => Throw e
     end,
     {| core := core w; argv_debug := argv_debug w;
        zonePlayerMap :=
          <[zone_id zone :=
              match projection objectPath created with
              | Normal projected => projected
              | Throw _ => created
              end]> (zonePlayerMap w);
        players_made := S (players_made w);
        trace :=
          trace w
            ++ debug_zone_log (argv_debug w)
                 (lit "New Zone: " ++ display_name zone)
            ++ [ConsoleLog (LogCreating (display_name zone));
                PlayerNew (players_made w) (name (player created))
                  (identity (player created))]
            ++ projection_log objectPath (argv_debug w) created |}).
Proof.
  intros Hnew created. unfold add_zone. unfold bind at 1.
  rewrite debugLogZone_eq. unfold bind at 1, get_map at 1.
  cbn [zonePlayerMap log_events]. rewrite Hnew.
  unfold bind at 1, console_log, emit. unfold bind at 1.
  rewrite createPlayerContext_eq.
  cbn [log_events core argv_debug zonePlayerMap players_made trace].
  unfold bind at 1, modify_map at 1.
  cbn [core argv_debug zonePlayerMap players_made trace].
  unfold bind at 1. rewrite updatePlayerFromZone_eq. fold created.
  cbn [log_events core argv_debug zonePlayerMap players_made trace].
  destruct (projection objectPath created) as [projected|e];
    unfold modify_map, log_events;
    cbn [core argv_debug zonePlayerMap players_made trace].
  - rewrite insert_insert_eq, <- !app_assoc. reflexivity.
  - rewrite <- !app_assoc. reflexivity.
Qed.

End Projection.

Section ProjectionClaims.

Variable objectPath : jsstring -> jsstring -> jsstring.

Lemma onZonesAdded_single (zone : Zone) (wsUrl : jsstring) (w : World) :
  onZonesAdded objectPath [zone] wsUrl w = add_zone objectPath wsUrl zone w.
Proof.
  unfold onZonesAdded, for_of, bind, ret.
  destruct (add_zone objectPath wsUrl zone w) as [[[]|e] w']; reflexivity.
Qed.

Lemma debug_zone_log_is_log (debug : bool) (label : jsstring) :
  forallb is_log (debug_zone_log debug label) = true.
Proof. destruct debug; reflexivity. Qed.

Lemma projection_log_is_log (debug : bool) (context : Context) :
  forallb is_log (projection_log objectPath debug context) = true.
Proof.
  unfold projection_log.
  destruct (now_playing (zone context)), debug; reflexivity.
Qed.

Lemma filter_logs_out (events : list Event) :
  forallb is_log events = true ->
  List.filter (fun e => negb (is_log e)) events = [].
Proof.
  induction events as [|e events IH]; [reflexivity|].
  cbn [forallb List.filter]. intros [He Hrest]%andb_true_iff.
  rewrite He. cbn [negb]. apply IH, Hrest.
Qed.

(** C2. Adding the zone of the end-to-end example, under the base address
    192.168.1.5:9100, to a registry that does not know it leaves a context
    whose player is named [roon_Living_Room] and carries metadata with the
    two artists, a length of 200000000 microseconds and the art URL
    [http://192.168.1.5:9100/image/img1]. *)
Theorem living_room_projection (w : World) :
  zonePlayerMap w !! lit "z1" = None ->
  exists (context : Context) (projected : Metadata) (w' : World),
    onZonesAdded objectPath [living_room] sample_base w = (Normal tt, w')
    /\ zonePlayerMap w' !! lit "z1" = Some context
    /\ name (player context) = lit "roon_Living_Room"
    /\ metadata (player context) = Some projected
    /\ xesam_artist projected = [lit "Artist A"; lit "Artist B"]
    /\ mpris_length projected = 200000000
    /\ mpris_artUrl projected = lit "http://192.168.1.5:9100/image/img1".
Proof.
  intros Hnew.
  rewrite onZonesAdded_single, (add_zone_unknown objectPath) by exact Hnew.
  destruct (projection objectPath
              (created_context (players_made w) living_room sample_base))
    as [context|e] eqn:Hprojection.
  - vm_compute in Hprojection. injection Hprojection as <-.
    eexists _, _, _. split; [reflexivity|].
    split; [apply lookup_insert_eq|].
    repeat split; reflexivity.
  - vm_compute in Hprojection. discriminate.
Qed.

(** C4, on the code. A zone whose now-playing record lacks [three_line]
    makes the projection throw: the [TypeError] leaves the subscription
    callback, and the player created for the zone has received neither
    metadata nor status.  The [metadata] object of the earlier [index.js]
    throws at the same place. *)
Theorem projection_throws_without_three_line :
  let data :=
    {| zones := Some [living_room_no_lines]; zones_added := None;
       zones_changed := None; zones_removed := None;
       zones_seek_changed := None |} in
  let result := subscribe_zones_callback objectPath data fresh_world in
  fst result = Throw (TypeError "now_playing.three_line.line1")
  /\ zonePlayerMap (snd result) !! lit "z1"
     = Some (created_context 0 living_room_no_lines sample_base)
  /\ IndexJs.build_metadata sample_base (sample_now_playing None)
     = Throw (TypeError "now_playing.three_line.line1").
Proof.
  intros data result. subst result data.
  split; [|split]; vm_compute; reflexivity.
Qed.

End ProjectionClaims.

Lemma living_room_projection_witness :
  zonePlayerMap fresh_world !! lit "z1" = None
  /\ exists (context : Context) (projected : Metadata) (w' : World),
       onZonesAdded sample_objectPath [living_room] sample_base fresh_world
       = (Normal tt, w')
       /\ zonePlayerMap w' !! lit "z1" = Some context
       /\ name (player context) = lit "roon_Living_Room"
       /\ metadata (player context) = Some projected
       /\ xesam_artist projected = [lit "Artist A"; lit "Artist B"]
       /\ mpris_length projected = 200000000
       /\ mpris_artUrl projected
          = lit "http://192.168.1.5:9100/image/img1".
Proof.
  split; [reflexivity|].
  apply (living_room_projection sample_objectPath fresh_world). reflexivity.
Defined.

Section RegistryClaims.

Variable objectPath : jsstring -> jsstring -> jsstring.

(** A projection changes neither the identity of the player nor the
    snapshot of the context. *)
Lemma projection_keeps (context projected : Context) :
  projection objectPath context = Normal projected ->
  player_id (player projected) = player_id (player context)
  /\ zone projected = zone context.
Proof.
  unfold projection. destruct (now_playing (zone context)) as [np|].
  - destruct (build_metadata _ _ _ _) as [md|e]; [|discriminate].
    intros [= <-]. split; reflexivity.
  - intros [= <-]. split; reflexivity.
Qed.

(** C7. Adding a zone the registry does not hold creates one context and
    constructs one player object for its identifier, whether or not the
    projection that follows succeeds; adding a zone of the same identifier
    again returns normally and changes neither the registry nor the
    players: it can only print. *)
Theorem onZonesAdded_idempotent
    (zone again : Zone) (wsUrl wsUrl' : jsstring) (w : World) :
  zonePlayerMap w !! zone_id zone = None ->
  zone_id again = zone_id zone ->
  let w1 := snd (onZonesAdded objectPath [zone] wsUrl w) in
  let second := onZonesAdded objectPath [again] wsUrl' w1 in
  (exists (context : Context) (done : list Event),
      zonePlayerMap w1 = <[zone_id zone := context]> (zonePlayerMap w)
      /\ player_id (player context) = players_made w
      /\ players_made w1 = S (players_made w)
      /\ trace w1 = trace w ++ done
      /\ List.filter (fun e => negb (is_log e)) done
         = [PlayerNew (players_made w)
              (lit "roon_" ++ Sanitizer.sanitizeForDBus (display_name zone))
              (lit "Roon - " ++ display_name zone)])
  /\ fst second = Normal tt
  /\ zonePlayerMap (snd second) = zonePlayerMap w1
  /\ size (zonePlayerMap (snd second)) = S (size (zonePlayerMap w))
  /\ players_made (snd second) = players_made w1
  /\ exists printed : list Event,
       trace (snd second) = trace w1 ++ printed
       /\ forallb is_log printed = true.
Proof.
  intros Hnew Hsame w1 second.
  assert (exists context done,
             zonePlayerMap w1 = <[zone_id zone := context]> (zonePlayerMap w)
             /\ player_id (player context) = players_made w
             /\ players_made w1 = S (players_made w)
             /\ trace w1 = trace w ++ done
             /\ List.filter (fun e => negb (is_log e)) done
                = [PlayerNew (players_made w)
                     (lit "roon_"
                        ++ Sanitizer.sanitizeForDBus (display_name zone))
                     (lit "Roon - " ++ display_name zone)]) as Hfirst.
  { subst w1.
    rewrite onZonesAdded_single, (add_zone_unknown objectPath) by exact Hnew.
    cbn [snd zonePlayerMap players_made trace].
    eexists _, _. split; [reflexivity|]. split; [|split; [reflexivity|]].
    - destruct (projection objectPath _) as [projected|e] eqn:Hp.
      + apply projection_keeps in Hp as [-> _]. reflexivity.
      + reflexivity.
    - split; [reflexivity|].
      rewrite !List.filter_app.
      rewrite (filter_logs_out _ (debug_zone_log_is_log _ _)).
      rewrite (filter_logs_out _ (projection_log_is_log objectPath _ _)).
      reflexivity. }
  split; [exact Hfirst|].
  destruct Hfirst as (context & done & Hmap & _ & _ & _ & _).
  assert (zonePlayerMap w1 !! zone_id again = Some context) as Hknown.
  { rewrite Hsame, Hmap. apply lookup_insert_eq. }
  subst second.
  rewrite onZonesAdded_single, (add_zone_known objectPath _ _ _ _ Hknown).
  cbn [fst snd log_events zonePlayerMap players_made trace].
  split; [reflexivity|]. split; [reflexivity|].
  split; [rewrite Hmap; apply map_size_insert_None, Hnew|].
  split; [reflexivity|].
  eexists. split; [reflexivity|]. apply debug_zone_log_is_log.
Qed.

End RegistryClaims.

Lemma onZonesAdded_idempotent_witness :
  fst (onZonesAdded sample_objectPath [living_room_no_lines] sample_base
         (snd (onZonesAdded sample_objectPath [living_room] sample_base
                 fresh_world)))
  = Normal tt
  /\ size (zonePlayerMap
             (snd (onZonesAdded sample_objectPath [living_room_no_lines]
                     sample_base
                     (snd (onZonesAdded sample_objectPath [living_room]
                             sample_base fresh_world)))))
     = 1%nat.
Proof.
  destruct (onZonesAdded_idempotent sample_objectPath living_room
              living_room_no_lines sample_base sample_base fresh_world
              eq_refl eq_refl) as (_ & Hnormal & _ & Hsize & _).
  split; [exact Hnormal | exact Hsize].
Defined.

(** ** Removal, position and seek requests *)

Lemma remove_zone_unknown (zoneId : jsstring) (w : World) :
  zonePlayerMap w !! zoneId = None -> remove_zone zoneId w = (Normal tt, w).
Proof.
  intros Hnew. unfold remove_zone, bind, get_map. rewrite Hnew. reflexivity.
Qed.

(** C9. Removing identifiers the registry does not hold returns normally
    and leaves the world as it was: the registry, every context and
    player, and the trace of effects. *)
Theorem onZonesRemoved_unknown (zoneIds : list jsstring) (w : World) :
  (forall zoneId, In zoneId zoneIds -> zonePlayerMap w !! zoneId = None) ->
  onZonesRemoved zoneIds w = (Normal tt, w).
Proof.
  unfold onZonesRemoved.
  induction zoneIds as [|zoneId zoneIds IH]; intros Hnew; [reflexivity|].
  cbn [for_of]. unfold bind at 1.
  rewrite remove_zone_unknown by (apply Hnew; left; reflexivity).
  apply IH. intros other Hin. apply Hnew. right. exact Hin.
Qed.

Lemma onZonesRemoved_unknown_witness :
  onZonesRemoved [lit "z2"] (world_with living_room 0)
  = (Normal tt, world_with living_room 0).
Proof.
  apply onZonesRemoved_unknown.
  intros zoneId [<- | []]. reflexivity.
Defined.

(** C10. The position getter of a zone returns 0 when the registry does
    not hold the zone or when its snapshot has no now-playing record, and
    the seek position of the snapshot times 1000000 otherwise.  It is a
    total function of the world: it cannot throw. *)
Theorem getPosition_spec (zoneId : jsstring) (w : World) :
  (zonePlayerMap w !! zoneId = None -> getPosition zoneId w = 0)
  /\ (forall context,
         zonePlayerMap w !! zoneId = Some context ->
         now_playing (zone context) = None ->
         getPosition zoneId w = 0)
  /\ (forall context nowPlaying,
         zonePlayerMap w !! zoneId = Some context ->
         now_playing (zone context) = Some nowPlaying ->
         getPosition zoneId w = seek_position nowPlaying * 1000000).
Proof.
  unfold getPosition. repeat split.
  - intros ->. reflexivity.
  - intros context -> ->. reflexivity.
  - intros context nowPlaying -> ->. lia.
Qed.

Lemma getPosition_spec_witness :
  getPosition (lit "z2") (world_with living_room 0) = 0
  /\ getPosition (lit "z1") (world_with (sample_zone None None) 0) = 0
  /\ getPosition (lit "z1") (world_with living_room 0) = 10000000.
Proof.
  split; [|split].
  - apply (getPosition_spec (lit "z2") (world_with living_room 0)).
    reflexivity.
  - apply (proj1 (proj2 (getPosition_spec (lit "z1")
                           (world_with (sample_zone None None) 0)))
             (sample_context (sample_zone None None) 0));
      reflexivity.
  - apply (proj2 (proj2 (getPosition_spec (lit "z1")
                           (world_with living_room 0)))
             (sample_context living_room 0)
             (sample_now_playing (Some sample_three_line)));
      reflexivity.
Defined.

(** C8. A relative seek or a set-position request for a zone whose
    snapshot has [is_seek_allowed = false] returns normally and does
    nothing but print one line: no call to the transport is issued, so no
    completion callback exists and no seeked notification is emitted. *)
Theorem seek_not_allowed_is_dropped
    (zoneId : jsstring) (w : World) (context : Context)
    (offset event_position : Z) :
  zonePlayerMap w !! zoneId = Some context ->
  is_seek_allowed (zone context) = Some false ->
  (exists line,
      on_seek zoneId offset w = (Normal tt, log_events w [ConsoleLog line]))
  /\ (exists line,
         on_position zoneId event_position w
         = (Normal tt, log_events w [ConsoleLog line])).
Proof.
  intros Hknown Hflag.
  unfold on_seek, on_position, bind, get_map, get_core.
  rewrite Hknown, Hflag. cbn [allowed negb].
  destruct (core w) as [c|]; split; eexists; reflexivity.
Qed.

Lemma seek_not_allowed_is_dropped_witness :
  trace (snd (on_seek (lit "z1") 5000000
                (world_with (sample_zone None (Some false)) 0)))
  = [ConsoleLog (LogSeekNotAllowed (lit "Living Room"))]
  /\ trace (snd (on_position (lit "z1") 5000000
                   (world_with (sample_zone None (Some false)) 0)))
     = [ConsoleLog (LogSeekNotAllowed (lit "Living Room"))].
Proof.
  destruct (seek_not_allowed_is_dropped (lit "z1")
              (world_with (sample_zone None (Some false)) 0)
              (sample_context (sample_zone None (Some false)) 0)
              5000000 5000000 eq_refl eq_refl) as [[l1 H1] [l2 H2]].
  split.
  - rewrite H1. vm_compute in H1. injection H1 as <-. reflexivity.
  - rewrite H2. vm_compute in H2. injection H2 as <-. reflexivity.
Defined.

(** * Further properties of the code *)

(** ** The sanitizer on names that are already valid *)

Module SanitizerMore.
Import Sanitizer.

Lemma replace_disallowed_length (s : jsstring) :
  length (replace_disallowed s) = length s.
Proof. apply length_map. Qed.

Lemma replace_disallowed_id (s : jsstring) :
  forallb dbus_allowed s = true -> replace_disallowed s = s.
Proof.
  induction s as [|c s IH]; [reflexivity|].
  cbn [forallb replace_disallowed map]. intros [Hc Hs]%andb_true_iff.
  rewrite Hc. f_equal. apply IH, Hs.
Qed.

Lemma valid_is_fixed (s : jsstring) :
  matches_dbus_name s = true -> starts_with_digit s = false ->
  sanitizeForDBus s = s.
Proof.
  intros Hm Hd. destruct s as [|c s]; [discriminate|].
  unfold matches_dbus_name in Hm. unfold sanitizeForDBus.
  rewrite (replace_disallowed_id _ Hm), Hd. reflexivity.
Qed.

Lemma result_is_valid (s : jsstring) :
  matches_dbus_name (sanitizeForDBus s) = true
  /\ starts_with_digit (sanitizeForDBus s) = false.
Proof.
  pose proof (SanitizerFacts.replace_disallowed_allowed s) as Hall.
  destruct (SanitizerFacts.sanitizeForDBus_cases s)
    as [[Hd ->] | [[Hs ->] | (Hne & Hd & ->)]].
  - split; [|reflexivity].
    change (forallb dbus_allowed (lit "zone_" ++ replace_disallowed s) = true).
    rewrite forallb_app, Hall. reflexivity.
  - split; reflexivity.
  - split; [|exact Hd].
    destruct (replace_disallowed s) as [|c s']; [congruence | exact Hall].
Qed.

End SanitizerMore.

(** X1. The names the sanitizer leaves alone are exactly the valid ones:
    [sanitizeForDBus s] is [s] if and only if [s] matches
    [^[A-Za-z0-9_-]+$] and does not begin with a digit. *)
Theorem sanitizeForDBus_fixed_points (s : jsstring) :
  Sanitizer.sanitizeForDBus s = s
  <-> Sanitizer.matches_dbus_name s = true
      /\ Sanitizer.starts_with_digit s = false.
Proof.
  split.
  - intros Hfix. rewrite <- Hfix. apply SanitizerMore.result_is_valid.
  - intros [Hm Hd]. apply SanitizerMore.valid_is_fixed; assumption.
Qed.

(** X2. Sanitizing is idempotent: a sanitized name is not changed by a
    second pass (no second [zone_] prefix, no further replacement). *)
Theorem sanitizeForDBus_idempotent (s : jsstring) :
  Sanitizer.sanitizeForDBus (Sanitizer.sanitizeForDBus s)
  = Sanitizer.sanitizeForDBus s.
Proof.
  destruct (SanitizerMore.result_is_valid s) as [Hm Hd].
  apply SanitizerMore.valid_is_fixed; assumption.
Qed.

(** ** The multi-artist split *)

Module SplitFacts.

Lemma slash_is_no_space : is_space 47 = false.
Proof. reflexivity. Qed.

(** The white-space run at the head of [ws ++ c :: t]. *)
Lemma span_spaces_run (ws : jsstring) (c : N) (t : jsstring) :
  forallb is_space ws = true -> is_space c = false ->
  span_spaces (ws ++ c :: t) = length ws
  /\ drop (length ws) (ws ++ c :: t) = c :: t.
Proof.
  intros Hws Hc. induction ws as [|x ws IH].
  - cbn. rewrite Hc. split; reflexivity.
  - cbn [forallb] in Hws. apply andb_true_iff in Hws as [Hx Hws].
    cbn. rewrite Hx. destruct (IH Hws) as [-> Hdrop].
    split; [reflexivity | exact Hdrop].
Qed.

Lemma span_spaces_all (ws : jsstring) :
  forallb is_space ws = true -> span_spaces ws = length ws.
Proof.
  induction ws as [|x ws IH]; [reflexivity|].
  cbn. intros [Hx Hws]%andb_true_iff. rewrite Hx, IH by exact Hws.
  reflexivity.
Qed.

(** Every string is a run of white space followed by nothing or by a
    character that is not white space. *)
Lemma leading_spaces (s : jsstring) :
  exists ws t,
    s = ws ++ t /\ forallb is_space ws = true
    /\ match t with
       | [] => True
       | c :: _ => is_space c = false
       end.
Proof.
  induction s as [|x s (ws & t & -> & Hws & Ht)].
  - exists [], []. repeat split.
  - destruct (is_space x) eqn:Hx.
    + exists (x :: ws), t. cbn. rewrite Hx. repeat split; assumption.
    + exists [], (x :: ws ++ t). repeat split. exact Hx.
Qed.

(** A match of the separator shows a slash between two white spaces. *)
Lemma separator_at_Some (s : jsstring) (k : nat) :
  separator_at s = Some k ->
  exists before c1 c2 after,
    s = before ++ c1 :: 47%N :: c2 :: after
    /\ is_space c1 = true /\ is_space c2 = true.
Proof.
  destruct (leading_spaces s) as (ws & t & -> & Hws & Ht).
  unfold separator_at. destruct t as [|c t].
  - rewrite app_nil_r, (span_spaces_all _ Hws).
    destruct (length ws) eqn:Hlen; [discriminate|].
    rewrite <- Hlen, drop_all. discriminate.
  - destruct (span_spaces_run ws c t Hws Ht) as [-> Hdrop].
    destruct (length ws) eqn:Hlen; [discriminate|].
    rewrite Hdrop.
    destruct ws as [|x ws _] using rev_ind; [discriminate|].
    destruct (N.eqb_spec c 47) as [->|]; [|discriminate].
    destruct t as [|c2 t]; [discriminate|]. cbn [span_spaces].
    destruct (is_space c2) eqn:Hc2; [|discriminate].
    intros _. exists ws, x, c2, t. rewrite <- app_assoc.
    rewrite forallb_app in Hws. apply andb_true_iff in Hws as [_ Hx].
    cbn in Hx. rewrite andb_true_r in Hx. repeat split; assumption.
Qed.

Lemma no_spaced_slash_tail (c : N) (s : jsstring) :
  no_spaced_slash (c :: s) -> no_spaced_slash s.
Proof.
  intros H before c1 c2 after ->.
  apply (H (c :: before) c1 c2 after). reflexivity.
Qed.

Lemma no_spaced_slash_no_separator (s : jsstring) :
  no_spaced_slash s -> separator_at s = None.
Proof.
  intros H. destruct (separator_at s) as [k|] eqn:Hsep; [|reflexivity].
  apply separator_at_Some in Hsep
    as (before & c1 & c2 & after & Hs & Hc1 & Hc2).
  specialize (H _ _ _ _ Hs). rewrite Hc1, Hc2 in H. discriminate.
Qed.

Lemma split_from_whole (cur s : jsstring) :
  no_spaced_slash s -> split_from cur O s = [rev cur ++ s].
Proof.
  revert cur. induction s as [|c s IH]; intros cur H.
  - cbn. rewrite app_nil_r. reflexivity.
  - cbn [split_from]. rewrite (no_spaced_slash_no_separator _ H).
    rewrite IH by (eapply no_spaced_slash_tail, H).
    cbn [rev]. rewrite <- app_assoc. reflexivity.
Qed.

End SplitFacts.

(** X3. A string in which no slash stands between two white-space
    characters is one artist: the split returns it whole.  This covers the
    empty string, names without a slash and names such as [AC/DC]. *)
Theorem split_artists_whole (s : jsstring) :
  no_spaced_slash s -> split_artists s = [s].
Proof. intros H. apply (SplitFacts.split_from_whole [] s H). Qed.

Lemma split_artists_whole_witness :
  split_artists (lit "AC/DC") = [lit "AC/DC"].
Proof.
  apply split_artists_whole.
  intros before c1 c2 after Hs.
  destruct before as [|b0 [|b1 [|b2 [|b3 [|b4 before]]]]];
    cbn in Hs; inversion Hs; subst; try reflexivity.
  all: destruct before; discriminate.
Defined.

Module JoinFacts.
Import SplitFacts.

Lemma clean_artist_parts (artist : jsstring) :
  clean_artist artist = true ->
  no_slash artist = true /\ ends_unspaced artist
  /\ exists c t, artist = c :: t /\ is_space c = false.
Proof.
  unfold clean_artist.
  intros [[Hslash Hhead]%andb_true_iff Hlast]%andb_true_iff.
  split; [exact Hslash|]. split.
  - intros _. destruct (last artist) as [c|]; [|discriminate].
    exists c. split; [reflexivity|]. apply negb_true_iff, Hlast.
  - destruct artist as [|c t]; [discriminate|].
    exists c, t. split; [reflexivity|]. apply negb_true_iff, Hhead.
Qed.

Lemma ends_unspaced_tail (x : N) (s : jsstring) :
  ends_unspaced (x :: s) -> ends_unspaced s.
Proof.
  intros H Hs. destruct (H ltac:(discriminate)) as (c & Hlast & Hc).
  exists c. split; [|exact Hc].
  destruct s as [|y s]; [congruence|]. exact Hlast.
Qed.

(** Inside a name without slash that does not end in white space, the
    separator matches nowhere, whatever follows the name. *)
Lemma no_separator_inside (x : N) (s rest : jsstring) :
  no_slash (x :: s) = true -> ends_unspaced (x :: s) ->
  separator_at ((x :: s) ++ rest) = None.
Proof.
  intros Hslash Hend.
  destruct (leading_spaces (x :: s)) as (ws & t & Hs & Hws & Ht).
  destruct t as [|c t].
  - exfalso. rewrite app_nil_r in Hs.
    destruct (Hend ltac:(discriminate)) as (l & Hlast & Hl).
    rewrite Hs in Hlast. apply last_Some in Hlast as [ws' ->].
    rewrite forallb_app in Hws. apply andb_true_iff in Hws as [_ Hws].
    cbn in Hws. rewrite Hl in Hws. discriminate.
  - assert (c <> 47%N) as Hc.
    { unfold no_slash in Hslash. rewrite Hs, forallb_app in Hslash.
      apply andb_true_iff in Hslash as [_ Hslash]. cbn in Hslash.
      apply andb_true_iff in Hslash as [Hslash _].
      apply negb_true_iff, N.eqb_neq in Hslash. exact Hslash. }
    rewrite Hs, <- app_assoc. cbn [app].
    destruct (span_spaces_run ws c (t ++ rest) Hws Ht) as [Hspan Hdrop].
    unfold separator_at. rewrite Hspan.
    destruct (length ws) eqn:Hlen; [reflexivity|].
    rewrite Hdrop. apply N.eqb_neq in Hc. rewrite Hc. reflexivity.
Qed.

Lemma split_from_through (s cur rest : jsstring) :
  no_slash s = true -> ends_unspaced s ->
  split_from cur O (s ++ rest) = split_from (rev s ++ cur) O rest.
Proof.
  revert cur. induction s as [|x s IH]; intros cur Hslash Hend;
    [reflexivity|].
  change ((x :: s) ++ rest) with (x :: (s ++ rest)). cbn [split_from].
  change (x :: (s ++ rest)) with ((x :: s) ++ rest).
  rewrite (no_separator_inside x s rest Hslash Hend).
  rewrite IH.
  - cbn [rev]. rewrite <- app_assoc. reflexivity.
  - cbn in Hslash. apply andb_true_iff in Hslash as [_ Hslash].
    exact Hslash.
  - eapply ends_unspaced_tail, Hend.
Qed.

Lemma separator_at_plain (c : N) (t : jsstring) :
  is_space c = false ->
  separator_at (32%N :: 47%N :: 32%N :: c :: t) = Some 3%nat.
Proof.
  intros Hc. unfold separator_at.
  assert (span_spaces (32%N :: 47%N :: 32%N :: c :: t) = 1%nat) as ->.
  { cbn [span_spaces]. change (is_space 32) with true.
    change (is_space 47) with false. reflexivity. }
  cbn [drop]. change (47 =? 47)%N with true. cbn iota.
  assert (span_spaces (32%N :: c :: t) = 1%nat) as ->.
  { cbn [span_spaces]. change (is_space 32) with true. rewrite Hc.
    reflexivity. }
  reflexivity.
Qed.

Lemma split_from_separator (cur : jsstring) (c : N) (t : jsstring) :
  is_space c = false ->
  split_from cur O (lit " / " ++ c :: t) = rev cur :: split_from [] O (c :: t).
Proof.
  intros Hc.
  change (lit " / " ++ c :: t) with (32%N :: 47%N :: 32%N :: c :: t).
  change (split_from cur 0 (32%N :: 47%N :: 32%N :: c :: t))
    with (match separator_at (32%N :: 47%N :: 32%N :: c :: t) with
          | Some k => rev cur :: split_from [] (pred k) (47%N :: 32%N :: c :: t)
          | None => split_from (32%N :: cur) O (47%N :: 32%N :: c :: t)
          end).
  rewrite (separator_at_plain c t Hc). reflexivity.
Qed.

Lemma join_artists_head (artist : jsstring) (rest : list jsstring) :
  forall c t, artist = c :: t ->
  exists t', join_artists (artist :: rest) = c :: t'.
Proof.
  intros c t ->. destruct rest as [|next rest]; cbn [join_artists].
  - exists t. reflexivity.
  - eexists. reflexivity.
Qed.

Lemma split_join (artists : list jsstring) :
  artists <> [] -> forallb clean_artist artists = true ->
  split_from [] O (join_artists artists) = artists.
Proof.
  induction artists as [|artist rest IH]; [congruence|].
  intros _ Hclean. cbn [forallb] in Hclean.
  apply andb_true_iff in Hclean as [Hartist Hrest].
  apply clean_artist_parts in Hartist as (Hslash & Hend & _).
  destruct rest as [|next rest].
  - cbn [join_artists]. rewrite <- (app_nil_r artist) at 1.
    rewrite split_from_through by assumption.
    cbn. rewrite app_nil_r, rev_involutive. reflexivity.
  - change (join_artists (artist :: next :: rest))
      with (artist ++ lit " / " ++ join_artists (next :: rest)).
    rewrite split_from_through by assumption.
    pose proof Hrest as Hnext. cbn [forallb] in Hnext.
    apply andb_true_iff in Hnext as [Hnext _].
    apply clean_artist_parts in Hnext as (_ & _ & c & t & Hhead & Hc).
    destruct (join_artists_head next rest c t Hhead) as [t' Hjoin].
    rewrite Hjoin, split_from_separator by exact Hc.
    rewrite <- Hjoin, IH by (assumption || discriminate).
    rewrite app_nil_r, rev_involutive. reflexivity.
Qed.

End JoinFacts.

(** X4. Splitting undoes joining: artist names that are not empty, hold no
    slash and neither begin nor end with white space, joined with
    [" / "], are returned by the split one by one and in order. *)
Theorem split_artists_join (artists : list jsstring) :
  artists <> [] ->
  forallb clean_artist artists = true ->
  split_artists (join_artists artists) = artists.
Proof. apply JoinFacts.split_join. Qed.

Lemma split_artists_join_witness :
  split_artists (lit "Artist A / Artist B / C")
  = [lit "Artist A"; lit "Artist B"; lit "C"].
Proof.
  apply (split_artists_join [lit "Artist A"; lit "Artist B"; lit "C"]);
    [discriminate | reflexivity].
Defined.

(** ** Collisions of the track identity *)

Section TrackIdentityMore.

Variable objectPath : jsstring -> jsstring -> jsstring.

(** X5. The track identity does not keep its three fields apart: text
    moved across the [|] delimiter, from the end of the title to the start
    of the artist, gives the same token. *)
Theorem generateTrackId_delimiter_collision
    (player : Player) (zoneId : jsstring) (np1 np2 : NowPlaying)
    (x y artist album : jsstring) :
  three_line np1
  = Some {| line1 := Some (x ++ lit "|" ++ y); line2 := Some artist;
            line3 := Some album |} ->
  three_line np2
  = Some {| line1 := Some x; line2 := Some (y ++ lit "|" ++ artist);
            line3 := Some album |} ->
  generateTrackId objectPath player zoneId np1
  = generateTrackId objectPath player zoneId np2.
Proof.
  intros H1 H2.
  unfold generateTrackId, track_hashStr, track_hash, track_combined,
    track_title, track_artist, track_album.
  rewrite H1, H2. cbn [mbind option_bind line1 line2 line3 or_empty].
  rewrite <- !app_assoc. reflexivity.
Qed.

End TrackIdentityMore.

Lemma generateTrackId_delimiter_collision_witness :
  generateTrackId sample_objectPath (sample_player None) (lit "z1")
    (sample_now_playing
       (Some {| line1 := Some (lit "Live|Remastered");
                line2 := Some (lit "Band"); line3 := Some (lit "Album") |}))
  = generateTrackId sample_objectPath (sample_player None) (lit "z1")
      (sample_now_playing
         (Some {| line1 := Some (lit "Live");
                  line2 := Some (lit "Remastered|Band");
                  line3 := Some (lit "Album") |})).
Proof.
  apply (generateTrackId_delimiter_collision sample_objectPath _ _ _ _
           (lit "Live") (lit "Remastered") (lit "Band") (lit "Album"));
    reflexivity.
Defined.

(** ** The branches of the subscription callback *)

Lemma for_of_single {A} (body : A -> M unit) (x : A) (w : World) :
  for_of [x] body w = body x w.
Proof.
  unfold for_of, bind, ret. destruct (body x w) as [[[]|e] w']; reflexivity.
Qed.

Lemma for_of_cons {A} (body : A -> M unit) (x : A) (l : list A) (w : World) :
  for_of (x :: l) body w
  = match body x w with
    | (Normal _, w') => for_of l body w'
    | (Throw e, w') => (Throw e, w')
    end.
Proof. reflexivity. Qed.

Lemma log_events_app (w : World) (a b : list Event) :
  log_events (log_events w a) b = log_events w (a ++ b).
Proof. unfold log_events. cbn. rewrite app_assoc. reflexivity. Qed.

Lemma world_after_same (w : World) :
  world_after w (zonePlayerMap w) (players_made w) [] = w.
Proof.
  destruct w. unfold world_after. cbn. rewrite app_nil_r. reflexivity.
Qed.

Lemma log_events_world_after (w : World) (events : list Event) :
  log_events w events
  = world_after w (zonePlayerMap w) (players_made w) events.
Proof. reflexivity. Qed.

Lemma effects_app (a b : list Event) :
  effects (a ++ b) = effects a ++ effects b.
Proof. apply List.filter_app. Qed.

Lemma effects_of_logs (events : list Event) :
  forallb is_log events = true -> effects events = [].
Proof. apply filter_logs_out. Qed.

Section BranchFacts.

Variable objectPath : jsstring -> jsstring -> jsstring.

(** What a successful projection yields. *)
Lemma projection_Normal (context projected : Context) :
  projection objectPath context = Normal projected ->
  zone projected = zone context
  /\ same_frame context projected
  /\ shows_status (zone context) (player projected)
  /\ (now_playing (zone context) = None ->
      metadata (player projected) = metadata (player context)).
Proof.
  unfold projection. destruct (now_playing (zone context)) as [np|].
  - destruct (build_metadata _ _ _ _) as [md|e]; [|discriminate].
    intros [= <-]. repeat split. discriminate.
  - intros [= <-]. repeat split.
Qed.

(** When a projection succeeds. *)
Lemma projection_succeeds (context : Context) :
  (exists projected, projection objectPath context = Normal projected)
  <-> match now_playing (zone context) with
      | None => True
      | Some np =>
          exists lines artists,
            three_line np = Some lines /\ line2 lines = Some artists
      end.
Proof.
  unfold projection, build_metadata.
  destruct (now_playing (zone context)) as [np|]; [|split; eauto].
  destruct (three_line np) as [lines|].
  - destruct (line2 lines) as [artists|] eqn:Hartists.
    + split; eauto.
    + split; [intros [? [=]] | intros (? & ? & [= <-] & ?); congruence].
  - split; [intros [? [=]] | intros (? & ? & [=] & _)].
Qed.

Lemma change_zone_unknown (zone : Zone) (w : World) :
  zonePlayerMap w !! zone_id zone = None ->
  change_zone objectPath zone w = (Normal tt, w).
Proof.
  intros Hnew. unfold change_zone, bind, get_map. rewrite Hnew. reflexivity.
Qed.

(** The changed branch on a zone the registry holds: the snapshot is
    replaced first, the projection follows. *)
Lemma change_zone_known (zone : Zone) (w : World) (context : Context) :
  zonePlayerMap w !! zone_id zone = Some context ->
  let replaced := with_zone context zone in
  exists printed,
    forallb is_log printed = true
    /\ change_zone objectPath zone w
       = (match projection objectPath replaced with
          | Normal _ => Normal tt
          | Throw e => Throw e
          end,
          world_after w
            (<[zone_id zone :=
                 match projection objectPath replaced with
                 | Normal projected => projected
                 | Throw _ => replaced
                 end]> (zonePlayerMap w))
            (players_made w) printed).
Proof.
  intros Hknown replaced.
  exists ((if negb (bool_decide (zone_track (snapshot context)
                                 = zone_track zone))
           then debug_zone_log (argv_debug w)
                  (lit "Track Changed: " ++ display_name zone)
           else [])
          ++ projection_log objectPath (argv_debug w) replaced).
  split.
  { rewrite forallb_app, projection_log_is_log, andb_true_r.
    destruct (negb _); [apply debug_zone_log_is_log | reflexivity]. }
  unfold change_zone. unfold bind at 1, get_map at 1. rewrite Hknown.
  unfold bind at 1.
  assert (when (negb (bool_decide (zone_track (snapshot context)
                                   = zone_track zone)))
            (debugLogZone (lit "Track Changed: " ++ display_name zone) zone)
            w
          = (Normal tt,
             log_events w
               (if negb (bool_decide (zone_track (snapshot context)
                                      = zone_track zone))
                then debug_zone_log (argv_debug w)
                       (lit "Track Changed: " ++ display_name zone)
                else []))) as ->.
  { unfold when. destruct (negb _).
    - apply debugLogZone_eq.
    - unfold ret. rewrite log_events_nil. reflexivity. }
  fold replaced. unfold bind at 1, modify_map at 1.
  unfold bind at 1. rewrite (updatePlayerFromZone_eq objectPath).
  unfold world_after, log_events, modify_map.
  cbn [core argv_debug zonePlayerMap players_made trace].
  destruct (projection objectPath replaced) as [projected|e].
  - rewrite insert_insert_eq, <- app_assoc. reflexivity.
  - rewrite <- app_assoc. reflexivity.
Qed.

Lemma remove_zone_known (zoneId : jsstring) (w : World) (context : Context) :
  zonePlayerMap w !! zoneId = Some context ->
  remove_zone zoneId w
  = (Normal tt,
     world_after w (delete zoneId (zonePlayerMap w)) (players_made w)
       (ConsoleLog (LogRemoving (display_name (zone context)))
        :: if has_bus (player context)
           then [BusDisconnect (player_id (player context))]
           else [])).
Proof.
  intros Hknown. unfold remove_zone. unfold bind at 1, get_map at 1.
  rewrite Hknown. unfold destroyPlayerContext, bind, console_log, emit,
    when, modify_map, ret, world_after, log_events.
  cbn [core argv_debug zonePlayerMap players_made trace].
  destruct (has_bus (player context));
    cbn [core argv_debug zonePlayerMap players_made trace];
    rewrite <- ?app_assoc; reflexivity.
Qed.

Lemma seek_change_unknown (change : SeekChange) (w : World) :
  zonePlayerMap w !! chg_zone_id change = None ->
  seek_change change w = (Normal tt, w).
Proof.
  intros Hnew. unfold seek_change, bind, get_map. rewrite Hnew. reflexivity.
Qed.

Lemma seek_change_known (change : SeekChange) (w : World) (context : Context) :
  zonePlayerMap w !! chg_zone_id change = Some context ->
  let micros := chg_seek_position change * 1000000 in
  seek_change change w
  = (Normal tt,
     world_after w
       (<[chg_zone_id change :=
            with_player (with_lastReportedPosition context micros)
              (set_position (player context) micros)]> (zonePlayerMap w))
       (players_made w)
       (if isSeek (lastReportedPosition context) micros
        then [ConsoleLog
                (LogDetectedSeek (display_name (zone context))
                   (chg_seek_position change));
              PlayerSeeked (player_id (player context)) micros]
        else [])).
Proof.
  intros Hknown micros. unfold seek_change. unfold bind at 1, get_map at 1.
  rewrite Hknown. fold micros.
  unfold bind, modify_map, when, console_log, emit, ret, world_after,
    log_events.
  cbn [core argv_debug zonePlayerMap players_made trace].
  destruct (isSeek (lastReportedPosition context) micros);
    cbn [core argv_debug zonePlayerMap players_made trace player zone
         with_player with_lastReportedPosition set_position player_id];
    rewrite <- ?app_assoc, ?app_nil_r; reflexivity.
Qed.

End BranchFacts.

Section BranchClaims.

Variable objectPath : jsstring -> jsstring -> jsstring.

Lemma with_zone_same (c : Context) : with_zone c (zone c) = c.
Proof. destruct c. reflexivity. Qed.

Lemma with_zone_frame (c : Context) (z : Zone) :
  same_frame c (with_zone c z).
Proof. repeat split. Qed.

Lemma same_frame_trans (a b c : Context) :
  same_frame a b -> same_frame b c -> same_frame a c.
Proof. unfold same_frame. intuition congruence. Qed.

(** A second projection changes nothing. *)
Lemma projection_again (context projected : Context) :
  projection objectPath context = Normal projected ->
  projection objectPath projected = Normal projected.
Proof.
  unfold projection. destruct (now_playing (zone context)) as [np|] eqn:Hnp.
  - destruct (build_metadata _ _ _ _) as [md|e] eqn:Hmd; [|discriminate].
    intros [= <-]. cbn [zone with_player player]. rewrite Hnp.
    change (name (project_status (set_metadata (player context) md)
                    (zone context)))
      with (name (player context)) in *.
    unfold generateTrackId in *.
    cbn [name project_status set_status_and_flags set_metadata wsUrl
         with_player].
    rewrite Hmd. reflexivity.
  - intros [= <-]. cbn [zone with_player]. rewrite Hnp. reflexivity.
Qed.

(** X6. A changed zone the registry holds: its snapshot is replaced
    whatever happens next, and nothing else of the context changes but
    what the projection assigns; the player shows the status and flags of
    the new snapshot when the projection succeeds and is untouched when
    it throws.  Other entries, the players made and the controller are
    as before; only console lines are added. *)
Theorem onZonesChanged_known (zone : Zone) (w : World) (context : Context) :
  zonePlayerMap w !! zone_id zone = Some context ->
  exists (context' : Context) (printed : list Event),
    forallb is_log printed = true
    /\ snd (onZonesChanged objectPath [zone] w)
       = world_after w (<[zone_id zone := context']> (zonePlayerMap w))
           (players_made w) printed
    /\ snapshot context' = zone
    /\ same_frame context context'
    /\ match fst (onZonesChanged objectPath [zone] w) with
       | Normal _ => shows_status zone (player context')
       | Throw _ => player context' = player context
       end.
Proof.
  intros Hknown. unfold onZonesChanged. rewrite for_of_single.
  destruct (change_zone_known objectPath zone w context Hknown)
    as (printed & Hlog & ->).
  cbn [fst snd].
  destruct (projection objectPath (with_zone context zone))
    as [projected|e] eqn:Hp.
  - exists projected, printed.
    apply projection_Normal in Hp as (Hzone & Hframe & Hstatus & _).
    split; [exact Hlog|]. split; [reflexivity|]. split; [exact Hzone|].
    split; [|exact Hstatus].
    eapply same_frame_trans; [apply with_zone_frame | exact Hframe].
  - exists (with_zone context zone), printed.
    split; [exact Hlog|]. split; [reflexivity|]. split; [reflexivity|].
    split; [apply with_zone_frame | reflexivity].
Qed.

(** X7. Changed zones the registry does not hold are ignored: the batch
    returns normally and the world is as before. *)
Theorem onZonesChanged_unknown (zones : list Zone) (w : World) :
  (forall zone, In zone zones -> zonePlayerMap w !! zone_id zone = None) ->
  onZonesChanged objectPath zones w = (Normal tt, w).
Proof.
  unfold onZonesChanged.
  induction zones as [|zone zones IH]; intros Hnew; [reflexivity|].
  rewrite for_of_cons, (change_zone_unknown objectPath)
    by (apply Hnew; left; reflexivity).
  apply IH. intros other Hin. apply Hnew. right. exact Hin.
Qed.

(** X8. A changed zone without now-playing record: the projection succeeds
    and the player shows the new status and flags, but its metadata are
    not cleared; they stay those of the track shown before. *)
Theorem onZonesChanged_idle_keeps_metadata
    (zone : Zone) (w : World) (context : Context) :
  zonePlayerMap w !! zone_id zone = Some context ->
  now_playing zone = None ->
  fst (onZonesChanged objectPath [zone] w) = Normal tt
  /\ exists context',
       zonePlayerMap (snd (onZonesChanged objectPath [zone] w))
         !! zone_id zone = Some context'
       /\ metadata (player context') = metadata (player context)
       /\ shows_status zone (player context').
Proof.
  intros Hknown Hidle. unfold onZonesChanged. rewrite for_of_single.
  destruct (change_zone_known objectPath zone w context Hknown)
    as (printed & _ & ->).
  cbn [fst snd world_after zonePlayerMap].
  destruct (projection objectPath (with_zone context zone))
    as [projected|e] eqn:Hp.
  - split; [reflexivity|]. exists projected.
    apply projection_Normal in Hp as (_ & _ & Hstatus & Hmeta).
    split; [apply lookup_insert_eq|]. split; [|exact Hstatus].
    apply Hmeta. exact Hidle.
  - exfalso. unfold projection in Hp.
    change (now_playing _) with (now_playing zone) in Hp.
    rewrite Hidle in Hp. discriminate.
Qed.

(** X9. [updatePlayerFromZone] throws exactly when the snapshot has a
    now-playing record whose [three_line] is missing or whose [line2] is
    missing; a missing title, album, length or image reference does not
    make it throw. *)
Theorem updatePlayerFromZone_throws_iff (context : Context) (w : World) :
  (exists e, fst (updatePlayerFromZone objectPath context w) = Throw e)
  <-> exists np,
        now_playing (zone context) = Some np
        /\ (three_line np = None
            \/ exists lines, three_line np = Some lines /\ line2 lines = None).
Proof.
  rewrite (updatePlayerFromZone_eq objectPath). cbn [fst].
  unfold projection, build_metadata.
  destruct (now_playing (zone context)) as [np|].
  - destruct (three_line np) as [lines|] eqn:Hlines.
    + destruct (line2 lines) as [artists|] eqn:Hartists.
      * split; [intros [? [=]]|].
        intros (np' & [= <-] & [H | (lines' & H & H')]); congruence.
      * split; [|eauto]. intros _. exists np. split; [reflexivity|].
        right. exists lines. split; [exact Hlines | exact Hartists].
    + split; [|eauto]. intros _. exists np. split; [reflexivity|].
      left. exact Hlines.
  - split; [intros [? [=]] | intros (? & [=] & _)].
Qed.

(** X10. Repeating a changed zone within a batch changes nothing more:
    registry, players and outcome are those of the single change. *)
Theorem onZonesChanged_twice (zone : Zone) (w : World) :
  fst (onZonesChanged objectPath [zone; zone] w)
  = fst (onZonesChanged objectPath [zone] w)
  /\ zonePlayerMap (snd (onZonesChanged objectPath [zone; zone] w))
     = zonePlayerMap (snd (onZonesChanged objectPath [zone] w))
  /\ players_made (snd (onZonesChanged objectPath [zone; zone] w))
     = players_made (snd (onZonesChanged objectPath [zone] w)).
Proof.
  unfold onZonesChanged. rewrite for_of_cons, for_of_single.
  destruct (zonePlayerMap w !! zone_id zone) as [context|] eqn:Hlookup.
  - destruct (change_zone_known objectPath zone w context Hlookup)
      as (printed & _ & ->).
    destruct (projection objectPath (with_zone context zone))
      as [projected|e] eqn:Hp; [|repeat split].
    rewrite for_of_single.
    set (w1 := world_after w _ _ _).
    assert (zonePlayerMap w1 !! zone_id zone = Some projected) as Hknown
      by apply lookup_insert_eq.
    destruct (change_zone_known objectPath zone w1 projected Hknown)
      as (printed' & _ & ->).
    assert (with_zone projected zone = projected) as ->.
    { apply projection_Normal in Hp as (Hzone & _).
      change (snapshot projected = zone) in Hzone.
      rewrite <- Hzone. apply with_zone_same. }
    rewrite (projection_again _ _ Hp).
    cbn [fst snd world_after zonePlayerMap players_made w1].
    rewrite insert_insert_eq. repeat split.
  - rewrite (change_zone_unknown objectPath) by exact Hlookup.
    rewrite for_of_single, (change_zone_unknown objectPath)
      by exact Hlookup.
    repeat split.
Qed.

End BranchClaims.

Lemma onZonesChanged_known_witness :
  exists context',
    zonePlayerMap
      (snd (onZonesChanged sample_objectPath
              [sample_zone None (Some true)] (world_with living_room 0)))
      !! lit "z1" = Some context'
    /\ snapshot context' = sample_zone None (Some true).
Proof.
  destruct (onZonesChanged_known sample_objectPath
              (sample_zone None (Some true)) (world_with living_room 0)
              (sample_context living_room 0) eq_refl)
    as (context' & printed & _ & -> & Hzone & _).
  exists context'. split; [apply lookup_insert_eq | exact Hzone].
Defined.

Lemma onZonesChanged_unknown_witness :
  onZonesChanged sample_objectPath [living_room] fresh_world
  = (Normal tt, fresh_world).
Proof.
  apply onZonesChanged_unknown. intros zone [<- | []]. reflexivity.
Defined.

Lemma onZonesChanged_idle_keeps_metadata_witness :
  fst (onZonesChanged sample_objectPath [sample_zone None None]
         (snd (onZonesAdded sample_objectPath [living_room] sample_base
                 fresh_world)))
  = Normal tt.
Proof.
  eapply (onZonesChanged_idle_keeps_metadata sample_objectPath
            (sample_zone None None)); reflexivity.
Defined.

(** ** Removal and return of a zone *)

Lemma getPosition_unknown (zoneId : jsstring) (w : World) :
  zonePlayerMap w !! zoneId = None -> getPosition zoneId w = 0.
Proof. intros H. unfold getPosition. rewrite H. reflexivity. Qed.

Lemma on_control_unknown (zoneId : jsstring) (cmd : Control) (w : World) :
  zonePlayerMap w !! zoneId = None ->
  on_control zoneId cmd w = (Normal tt, w).
Proof.
  intros H. unfold on_control, bind, get_map, get_core. rewrite H.
  reflexivity.
Qed.

(** X11. Removing a zone the registry holds deletes its entry and no
    other, disconnects its player from the bus, once, and constructs
    nothing; afterwards the position getter of the zone returns 0 and its
    transport controls do nothing. *)
Theorem onZonesRemoved_known
    (zoneId : jsstring) (w : World) (context : Context) :
  zonePlayerMap w !! zoneId = Some context ->
  has_bus (player context) = true ->
  let w' := snd (onZonesRemoved [zoneId] w) in
  fst (onZonesRemoved [zoneId] w) = Normal tt
  /\ zonePlayerMap w' = delete zoneId (zonePlayerMap w)
  /\ players_made w' = players_made w
  /\ (exists new,
         trace w' = trace w ++ new
         /\ effects new = [BusDisconnect (player_id (player context))])
  /\ getPosition zoneId w' = 0
  /\ forall cmd, fire zoneId (OnControl cmd) w' = (Normal tt, w').
Proof.
  intros Hknown Hbus w'. subst w'. unfold onZonesRemoved.
  rewrite for_of_single, (remove_zone_known _ _ _ Hknown), Hbus.
  cbn [fst snd world_after zonePlayerMap players_made trace].
  split; [reflexivity|]. split; [reflexivity|]. split; [reflexivity|].
  split; [eexists; split; reflexivity|].
  split.
  - apply getPosition_unknown. cbn [zonePlayerMap]. apply lookup_delete_eq.
  - intros cmd. apply on_control_unknown. cbn [zonePlayerMap].
    apply lookup_delete_eq.
Qed.

Lemma onZonesRemoved_known_witness :
  zonePlayerMap (snd (onZonesRemoved [lit "z1"] (world_with living_room 0)))
  = delete (lit "z1") (zonePlayerMap (world_with living_room 0)).
Proof.
  apply (onZonesRemoved_known (lit "z1") (world_with living_room 0)
           (sample_context living_room 0)); reflexivity.
Defined.

Section ReturnClaims.

Variable objectPath : jsstring -> jsstring -> jsstring.

(** What the add branch leaves for a zone the registry did not hold. *)
Lemma add_zone_unknown_summary (wsUrl : jsstring) (zone : Zone) (w : World) :
  zonePlayerMap w !! zone_id zone = None ->
  exists context new,
    snd (add_zone objectPath wsUrl zone w)
    = world_after w (<[zone_id zone := context]> (zonePlayerMap w))
        (S (players_made w)) new
    /\ effects new
       = [PlayerNew (players_made w)
            (lit "roon_" ++ Sanitizer.sanitizeForDBus (display_name zone))
            (lit "Roon - " ++ display_name zone)]
    /\ snapshot context = zone
    /\ same_frame (created_context (players_made w) zone wsUrl) context.
Proof.
  intros Hnew. rewrite (add_zone_unknown objectPath) by exact Hnew.
  cbn [snd]. eexists _, _. split; [reflexivity|]. split.
  - rewrite !effects_app.
    rewrite (effects_of_logs _ (debug_zone_log_is_log _ _)).
    rewrite (effects_of_logs _ (projection_log_is_log objectPath _ _)).
    reflexivity.
  - destruct (projection objectPath _) as [projected|e] eqn:Hp.
    + apply projection_Normal in Hp as (Hzone & Hframe & _).
      split; [exact Hzone | exact Hframe].
    + split; [reflexivity | repeat split].
Qed.

(** X12. A zone that is added, removed and added again is back under a
    new player: the removal restores the registry, the second add
    constructs a second player object of a new identity, with the last
    reported position back at 0 and the base address of the second add;
    the first player has been disconnected in between. *)
Theorem zone_returns_with_new_player
    (zone again : Zone) (base base' : jsstring) (w : World) :
  zonePlayerMap w !! zone_id zone = None ->
  zone_id again = zone_id zone ->
  let w1 := snd (onZonesAdded objectPath [zone] base w) in
  let w2 := snd (onZonesRemoved [zone_id zone] w1) in
  let w3 := snd (onZonesAdded objectPath [again] base' w2) in
  zonePlayerMap w2 = zonePlayerMap w
  /\ exists context new,
       zonePlayerMap w3 !! zone_id zone = Some context
       /\ player_id (player context) = S (players_made w)
       /\ lastReportedPosition context = 0
       /\ wsUrl context = base'
       /\ trace w3 = trace w ++ new
       /\ effects new
          = [PlayerNew (players_made w)
               (lit "roon_" ++ Sanitizer.sanitizeForDBus (display_name zone))
               (lit "Roon - " ++ display_name zone);
             BusDisconnect (players_made w);
             PlayerNew (S (players_made w))
               (lit "roon_"
                  ++ Sanitizer.sanitizeForDBus (display_name again))
               (lit "Roon - " ++ display_name again)].
Proof.
  intros Hnew Hsame w1 w2 w3.
  destruct (add_zone_unknown_summary base zone w Hnew)
    as (c1 & new1 & Hw1 & Heff1 & _ & Hframe1).
  assert (w1 = world_after w (<[zone_id zone := c1]> (zonePlayerMap w))
                 (S (players_made w)) new1) as Hw1'.
  { subst w1. rewrite onZonesAdded_single. exact Hw1. }
  destruct Hframe1 as (_ & _ & _ & Hid1 & _ & _ & Hbus1 & _).
  cbn in Hid1, Hbus1.
  assert (zonePlayerMap w1 !! zone_id zone = Some c1) as Hknown1.
  { rewrite Hw1'. apply lookup_insert_eq. }
  assert (w2 = world_after w1 (delete (zone_id zone) (zonePlayerMap w1))
                 (players_made w1)
                 [ConsoleLog (LogRemoving (display_name (snapshot c1)));
                  BusDisconnect (players_made w)]) as Hw2.
  { subst w2. unfold onZonesRemoved.
    rewrite for_of_single, (remove_zone_known _ _ _ Hknown1), Hbus1, Hid1.
    reflexivity. }
  assert (zonePlayerMap w2 = zonePlayerMap w) as Hmap2.
  { rewrite Hw2, Hw1'. cbn [world_after zonePlayerMap].
    apply delete_insert_id, Hnew. }
  split; [exact Hmap2|].
  assert (zonePlayerMap w2 !! zone_id again = None) as Hnew2.
  { rewrite Hmap2, Hsame. exact Hnew. }
  destruct (add_zone_unknown_summary base' again w2 Hnew2)
    as (c3 & new3 & Hw3 & Heff3 & _ & Hframe3).
  assert (players_made w2 = S (players_made w)) as Hmade2.
  { rewrite Hw2, Hw1'. reflexivity. }
  assert (trace w2
          = trace w
              ++ new1
              ++ [ConsoleLog (LogRemoving (display_name (snapshot c1)));
                  BusDisconnect (players_made w)]) as Htrace2.
  { rewrite Hw2, Hw1'. cbn [world_after trace]. rewrite <- app_assoc.
    reflexivity. }
  exists c3, (new1
              ++ [ConsoleLog (LogRemoving (display_name (snapshot c1)));
                  BusDisconnect (players_made w)]
              ++ new3).
  subst w3. rewrite onZonesAdded_single, Hw3.
  cbn [world_after zonePlayerMap trace].
  destruct Hframe3 as (_ & Hws & Hlast & Hid3 & _). cbn in Hws, Hlast, Hid3.
  split; [rewrite <- Hsame; apply lookup_insert_eq|].
  split; [rewrite Hid3; exact Hmade2|].
  split; [exact Hlast|]. split; [exact Hws|].
  split; [rewrite Htrace2, <- !app_assoc; reflexivity|].
  rewrite !effects_app, Heff1, Heff3, Hmade2. reflexivity.
Qed.

End ReturnClaims.

Lemma zone_returns_with_new_player_witness :
  exists context,
    zonePlayerMap
      (snd (onZonesAdded sample_objectPath [living_room] sample_base
              (snd (onZonesRemoved [lit "z1"]
                      (snd (onZonesAdded sample_objectPath [living_room]
                              sample_base fresh_world))))))
      !! lit "z1" = Some context
    /\ player_id (player context) = 1%nat.
Proof.
  destruct (zone_returns_with_new_player sample_objectPath living_room
              living_room sample_base sample_base fresh_world
              eq_refl eq_refl)
    as (_ & context & new & Hlookup & Hid & _).
  exists context. split; [exact Hlookup | exact Hid].
Defined.

(** ** Requests from the desktop *)

Lemma on_control_known (zoneId : jsstring) (cmd : Control) (w : World)
    (context : Context) (c : Core) :
  zonePlayerMap w !! zoneId = Some context -> core w = Some c ->
  on_control zoneId cmd w
  = (Normal tt,
     log_events w
       [ConsoleLog (LogControl (display_name (zone context)) cmd);
        TransportControl (zone context) cmd]).
Proof.
  intros Hknown Hcore. unfold on_control, bind, get_map, get_core.
  rewrite Hknown, Hcore. unfold console_log, emit, log_events.
  cbn [core argv_debug zonePlayerMap players_made trace].
  rewrite <- app_assoc. reflexivity.
Qed.

Lemma getPosition_known (zoneId : jsstring) (w : World) (context : Context) :
  zonePlayerMap w !! zoneId = Some context ->
  getPosition zoneId w
  = match now_playing (zone context) with
    | Some np => seek_position np * 1000000
    | None => 0
    end.
Proof.
  intros H. unfold getPosition. rewrite H.
  destruct (now_playing (zone context)); [lia | reflexivity].
Qed.

Section SnapshotClaims.

Variable objectPath : jsstring -> jsstring -> jsstring.

(** X13. After a changed zone the handlers of the zone work on the new
    snapshot, whether or not its projection succeeded: the position
    getter reports the seek position of the new snapshot, and a transport
    control hands the new snapshot to the transport. *)
Theorem handlers_follow_snapshot
    (zone : Zone) (cmd : Control) (w : World) (context : Context) (c : Core) :
  zonePlayerMap w !! zone_id zone = Some context ->
  core w = Some c ->
  let w' := snd (onZonesChanged objectPath [zone] w) in
  getPosition (zone_id zone) w'
  = match now_playing zone with
    | Some np => seek_position np * 1000000
    | None => 0
    end
  /\ fire (zone_id zone) (OnControl cmd) w'
     = (Normal tt,
        log_events w'
          [ConsoleLog (LogControl (display_name zone) cmd);
           TransportControl zone cmd]).
Proof.
  intros Hknown Hcore w'.
  assert (exists context',
             zonePlayerMap w' !! zone_id zone = Some context'
             /\ snapshot context' = zone /\ core w' = Some c)
    as (context' & Hknown' & Hzone & Hcore').
  { subst w'. unfold onZonesChanged. rewrite for_of_single.
    destruct (change_zone_known objectPath zone w context Hknown)
      as (printed & _ & ->).
    cbn [snd world_after zonePlayerMap core].
    eexists. split; [apply lookup_insert_eq|]. split; [|exact Hcore].
    destruct (projection objectPath (with_zone context zone))
      as [projected|e] eqn:Hp; [|reflexivity].
    apply projection_Normal in Hp as (Hzone & _). exact Hzone. }
  unfold snapshot in Hzone. split.
  - rewrite (getPosition_known _ _ _ Hknown'), Hzone. reflexivity.
  - cbn [fire]. rewrite (on_control_known _ _ _ _ _ Hknown' Hcore'), Hzone.
    reflexivity.
Qed.

End SnapshotClaims.

Lemma handlers_follow_snapshot_witness :
  getPosition (lit "z1")
    (snd (onZonesChanged sample_objectPath [living_room_no_lines]
            (world_with (sample_zone None None) 0)))
  = 10000000.
Proof.
  apply (handlers_follow_snapshot sample_objectPath living_room_no_lines
           playpause (world_with (sample_zone None None) 0)
           (sample_context (sample_zone None None) 0)
           {| ws_url := Some (lit "ws://192.168.1.5:9100") |});
    reflexivity.
Defined.

(** X14. A seek or set-position request is forwarded to the transport
    exactly when the controller is paired, the zone is registered and its
    snapshot has [is_seek_allowed] true: then one seek call is issued,
    with the snapshot, the mode and the amount of the request; in every
    other case (the flag false or missing included) the request only
    prints a line.  Either way the handler returns normally and touches
    neither the registry nor the players. *)
Theorem seek_request_outcome
    (zoneId : jsstring) (mode : SeekMode) (micros : Z) (w : World) :
  exists new,
    fire zoneId (seek_event mode micros) w = (Normal tt, log_events w new)
    /\ ((exists context c,
            zonePlayerMap w !! zoneId = Some context
            /\ core w = Some c
            /\ is_seek_allowed (zone context) = Some true
            /\ effects new = [TransportSeek (zone context) mode micros])
        \/ ((forall context c,
                zonePlayerMap w !! zoneId = Some context ->
                core w = Some c ->
                is_seek_allowed (zone context) <> Some true)
            /\ effects new = [])).
Proof.
  destruct mode; cbn [seek_event fire];
    unfold on_seek, on_position, bind, get_map, get_core;
    (destruct (zonePlayerMap w !! zoneId) as [context|] eqn:Hlookup;
     [destruct (core w) as [c|] eqn:Hcore;
      [destruct (is_seek_allowed (zone context)) as [[|]|] eqn:Hflag|]|]);
    cbn [allowed negb];
    unfold console_log, emit, log_events;
    cbn [core argv_debug zonePlayerMap players_made trace];
    rewrite <- ?app_assoc;
    (eexists; split; [reflexivity|]);
    first [ left; exists context, c; repeat split; assumption
          | right; split; [intros ? ? ? ?; congruence | reflexivity]
          | right; split; [intros ? ? ?; congruence | reflexivity] ].
Qed.

(** What an event of a player does. *)
Lemma fire_effects (zoneId : jsstring) (ev : PlayerEvent) (w : World) :
  exists new,
    fire zoneId ev w = (Normal tt, log_events w new)
    /\ forallb is_transport_call (effects new) = true
    /\ (length (effects new) <= 1)%nat
    /\ (match ev with
        | OnUnimplemented _ | OnQuit => True
        | _ => zonePlayerMap w !! zoneId = None \/ core w = None
        end ->
        effects new = []).
Proof.
  destruct ev as [cmd|offset|event_position|name|]; cbn [fire];
    unfold on_control, on_seek, on_position, on_unimplemented, on_quit,
      bind, get_map, get_core.
  - destruct (zonePlayerMap w !! zoneId) as [context|] eqn:Hlookup;
      [destruct (core w) as [c|] eqn:Hcore|].
    + unfold console_log, emit, log_events.
      cbn [core argv_debug zonePlayerMap players_made trace].
      rewrite <- app_assoc. eexists. split; [reflexivity|].
      repeat split; cbn; try lia. intros [|]; congruence.
    + exists []. rewrite log_events_nil. repeat split. cbn. lia.
    + exists []. rewrite log_events_nil. repeat split. cbn. lia.
  - destruct (zonePlayerMap w !! zoneId) as [context|] eqn:Hlookup;
      [destruct (core w) as [c|] eqn:Hcore;
       [destruct (negb (allowed (is_seek_allowed (zone context))))|]|];
      unfold console_log, emit, log_events;
      cbn [core argv_debug zonePlayerMap players_made trace];
      rewrite <- ?app_assoc; (eexists; split; [reflexivity|]);
      repeat split; cbn; try lia; intros [|]; congruence.
  - destruct (zonePlayerMap w !! zoneId) as [context|] eqn:Hlookup;
      [destruct (core w) as [c|] eqn:Hcore;
       [destruct (negb (allowed (is_seek_allowed (zone context))))|]|];
      unfold console_log, emit, log_events;
      cbn [core argv_debug zonePlayerMap players_made trace];
      rewrite <- ?app_assoc; (eexists; split; [reflexivity|]);
      repeat split; cbn; try lia; intros [|]; congruence.
  - unfold console_log, emit. eexists. split; [reflexivity|].
    repeat split. cbn. lia.
  - unfold console_log, emit. eexists. split; [reflexivity|].
    repeat split. cbn. lia.
Qed.

(** X15. No handler of a player throws or touches the registry, the
    players or the controller: an event adds console lines and at most
    one call to the transport, and none at all when the event is not
    implemented or a quit request, when the zone is not registered or
    when no controller is paired.  No handler emits a seeked notification
    or disconnects a player. *)
Theorem fire_frame (zoneId : jsstring) (ev : PlayerEvent) (w : World) :
  exists new,
    fire zoneId ev w = (Normal tt, log_events w new)
    /\ forallb is_transport_call (effects new) = true
    /\ (length (effects new) <= 1)%nat
    /\ (match ev with
        | OnUnimplemented _ | OnQuit => True
        | _ => zonePlayerMap w !! zoneId = None \/ core w = None
        end ->
        effects new = []).
Proof. apply fire_effects. Qed.

(** ** Consecutive position reports *)

(** On whole seconds the classifier flags a report as a seek exactly when
    the position went back or advanced by more than three seconds. *)
Lemma isSeek_seconds (a b : Z) :
  isSeek (a * 1000000) (b * 1000000) = ((b <? a) || (a + 3 <? b)).
Proof.
  unfold isSeek. rewrite Z.gtb_ltb.
  destruct (Z.ltb_spec 2000000 (Z.abs (b * 1000000 - (a * 1000000 + 1500000))));
    destruct (Z.ltb_spec b a); destruct (Z.ltb_spec (a + 3) b);
    cbn; try reflexivity; lia.
Qed.

Lemma onZonesSeekChanged_report
    (zoneId : jsstring) (seconds : Z) (w : World) (context : Context) :
  zonePlayerMap w !! zoneId = Some context ->
  exists context' new,
    onZonesSeekChanged
      [{| chg_zone_id := zoneId; chg_seek_position := seconds |}] w
    = (Normal tt,
       world_after w (<[zoneId := context']> (zonePlayerMap w))
         (players_made w) new)
    /\ lastReportedPosition context' = seconds * 1000000
    /\ player_id (player context') = player_id (player context)
    /\ effects new
       = if isSeek (lastReportedPosition context) (seconds * 1000000)
         then [PlayerSeeked (player_id (player context)) (seconds * 1000000)]
         else [].
Proof.
  intros Hknown. unfold onZonesSeekChanged. rewrite for_of_single.
  rewrite (seek_change_known
             {| chg_zone_id := zoneId; chg_seek_position := seconds |}
             w context Hknown).
  cbn [chg_zone_id chg_seek_position].
  eexists _, _. split; [reflexivity|]. split; [reflexivity|].
  split; [reflexivity|].
  destruct (isSeek _ _); reflexivity.
Qed.

Section ReportClaims.

Variable objectPath : jsstring -> jsstring -> jsstring.

(** Changed zones leave every entry in place, with its frame. *)
Lemma onZonesChanged_frame (zones : list Zone) (w : World)
    (key : jsstring) (context : Context) :
  zonePlayerMap w !! key = Some context ->
  exists context',
    zonePlayerMap (snd (onZonesChanged objectPath zones w)) !! key
    = Some context'
    /\ same_frame context context'.
Proof.
  unfold onZonesChanged. revert w context.
  induction zones as [|zone zones IH]; intros w context Hkey.
  - exists context. split; [exact Hkey | repeat split].
  - rewrite for_of_cons.
    destruct (zonePlayerMap w !! zone_id zone) as [c|] eqn:Hlookup.
    + destruct (change_zone_known objectPath zone w c Hlookup)
        as (printed & _ & ->).
      set (c' := match projection objectPath (with_zone c zone) with
                 | Normal projected => projected
                 | Throw _ => with_zone c zone
                 end).
      assert (same_frame c c') as Hframe.
      { subst c'.
        destruct (projection objectPath (with_zone c zone))
          as [projected|e] eqn:Hp; [|apply with_zone_frame].
        apply projection_Normal in Hp as (_ & Hframe & _).
        eapply same_frame_trans; [apply with_zone_frame | exact Hframe]. }
      assert (exists context1,
                 <[zone_id zone := c']> (zonePlayerMap w) !! key
                 = Some context1
                 /\ same_frame context context1) as (context1 & Hkey1 & H1).
      { destruct (decide (zone_id zone = key)) as [<-|Hne].
        - exists c'. split; [apply lookup_insert_eq|]. congruence.
        - exists context. rewrite lookup_insert_ne by exact Hne.
          split; [exact Hkey | repeat split]. }
      destruct (projection objectPath (with_zone c zone)) as [projected|e].
      * destruct (IH (world_after w
                        (<[zone_id zone := c']> (zonePlayerMap w))
                        (players_made w) printed) context1 Hkey1)
          as (context' & Hkey' & H').
        exists context'. split; [exact Hkey'|].
        eapply same_frame_trans; eassumption.
      * exists context1. split; [exact Hkey1 | exact H1].
    + rewrite (change_zone_unknown objectPath) by exact Hlookup.
      apply IH. exact Hkey.
Qed.

(** X16. Two position reports of a zone, in whole seconds, with any
    batch of changed zones in between: the second report is announced as
    a seek exactly when the position went back or advanced by more than
    three seconds since the first.  A repeated position and an advance of
    one to three seconds are progress; changed zones, a new track
    included, do not reset the position the classifier remembers. *)
Theorem consecutive_reports
    (zoneId : jsstring) (first second : Z) (between : list Zone)
    (w : World) (context : Context) :
  zonePlayerMap w !! zoneId = Some context ->
  let report seconds :=
    {| chg_zone_id := zoneId; chg_seek_position := seconds |} in
  let w1 := snd (onZonesSeekChanged [report first] w) in
  let w2 := snd (onZonesChanged objectPath between w1) in
  exists new,
    trace (snd (onZonesSeekChanged [report second] w2)) = trace w2 ++ new
    /\ effects new
       = if (second <? first) || (first + 3 <? second)
         then [PlayerSeeked (player_id (player context)) (second * 1000000)]
         else [].
Proof.
  intros Hknown report w1 w2.
  destruct (onZonesSeekChanged_report zoneId first w context Hknown)
    as (c1 & new1 & Hw1 & Hlast1 & Hid1 & _).
  assert (zonePlayerMap w1 !! zoneId = Some c1) as Hknown1.
  { subst w1 report. cbv beta. rewrite Hw1. apply lookup_insert_eq. }
  destruct (onZonesChanged_frame between w1 zoneId c1 Hknown1)
    as (c2 & Hknown2 & Hframe).
  fold w2 in Hknown2.
  destruct Hframe as (_ & _ & Hlast2 & Hid2 & _).
  destruct (onZonesSeekChanged_report zoneId second w2 c2 Hknown2)
    as (c3 & new & Hw3 & _ & _ & Heff).
  exists new. subst report. cbv beta. rewrite Hw3. split; [reflexivity|].
  rewrite Heff, Hlast2, Hlast1, Hid2, Hid1, isSeek_seconds. reflexivity.
Qed.

(** X17. The first position report of a zone just added is measured
    against position 0: it is announced as a seek exactly when it is
    negative or later than three seconds, so a zone added in the middle
    of a track starts with a seeked notification. *)
Theorem first_report_after_add
    (zone : Zone) (base : jsstring) (seconds : Z) (w : World) :
  zonePlayerMap w !! zone_id zone = None ->
  let w1 := snd (onZonesAdded objectPath [zone] base w) in
  exists new,
    trace (snd (onZonesSeekChanged
                  [{| chg_zone_id := zone_id zone;
                      chg_seek_position := seconds |}] w1))
    = trace w1 ++ new
    /\ effects new
       = if (seconds <? 0) || (3 <? seconds)
         then [PlayerSeeked (players_made w) (seconds * 1000000)]
         else [].
Proof.
  intros Hnew w1.
  destruct (add_zone_unknown_summary objectPath base zone w Hnew)
    as (c1 & new1 & Hw1 & _ & _ & Hframe).
  destruct Hframe as (_ & _ & Hlast & Hid & _). cbn in Hlast, Hid.
  assert (zonePlayerMap w1 !! zone_id zone = Some c1) as Hknown.
  { subst w1. rewrite onZonesAdded_single, Hw1. apply lookup_insert_eq. }
  destruct (onZonesSeekChanged_report (zone_id zone) seconds w1 c1 Hknown)
    as (c2 & new & Hw2 & _ & _ & Heff).
  exists new. rewrite Hw2. split; [reflexivity|].
  rewrite Heff, Hlast, Hid.
  change 0 with (0 * 1000000) at 1. rewrite isSeek_seconds. reflexivity.
Qed.

End ReportClaims.

Lemma consecutive_reports_witness :
  exists new,
    trace (snd (onZonesSeekChanged
                  [{| chg_zone_id := lit "z1"; chg_seek_position := 0 |}]
                  (snd (onZonesChanged sample_objectPath
                          [sample_zone None None]
                          (snd (onZonesSeekChanged
                                  [{| chg_zone_id := lit "z1";
                                      chg_seek_position := 200 |}]
                                  (world_with living_room 0)))))))
    = trace (snd (onZonesChanged sample_objectPath [sample_zone None None]
                    (snd (onZonesSeekChanged
                            [{| chg_zone_id := lit "z1";
                                chg_seek_position := 200 |}]
                            (world_with living_room 0)))))
        ++ new
    /\ effects new = [PlayerSeeked 0%nat 0].
Proof.
  apply (consecutive_reports sample_objectPath (lit "z1") 200 0
           [sample_zone None None] (world_with living_room 0)
           (sample_context living_room 0)).
  reflexivity.
Defined.

Lemma first_report_after_add_witness :
  exists new,
    trace (snd (onZonesSeekChanged
                  [{| chg_zone_id := lit "z1"; chg_seek_position := 100 |}]
                  (snd (onZonesAdded sample_objectPath [living_room]
                          sample_base fresh_world))))
    = trace (snd (onZonesAdded sample_objectPath [living_room] sample_base
                    fresh_world))
        ++ new
    /\ effects new = [PlayerSeeked 0%nat 100000000].
Proof.
  apply (first_report_after_add sample_objectPath living_room sample_base
           100 fresh_world).
  reflexivity.
Defined.

(** ** Invariants of the engine *)

Section Steps.

(** A relation between the world before and after, kept by every step. *)
Variable R : World -> World -> Prop.
Hypothesis R_refl : forall w, R w w.
Hypothesis R_trans : forall a b c, R a b -> R b c -> R a c.

Lemma related_bind {A B} (m : M A) (k : A -> M B) :
  (forall w, R w (snd (m w))) ->
  (forall a w, R w (snd (k a w))) ->
  forall w, R w (snd (bind m k w)).
Proof.
  intros Hm Hk w. unfold bind. specialize (Hm w).
  destruct (m w) as [[a|e] w']; cbn [snd] in *; [|exact Hm].
  eapply R_trans; [exact Hm | apply Hk].
Qed.

Lemma related_for_of {A} (body : A -> M unit) (l : list A) :
  (forall x w, R w (snd (body x w))) ->
  forall w, R w (snd (for_of l body w)).
Proof.
  intros Hbody. induction l as [|x l IH]; intros w; [apply R_refl|].
  cbn [for_of]. apply related_bind; [apply Hbody | intros _; exact IH].
Qed.

Lemma related_if_present {A} (l : option (list A)) (body : list A -> M unit) :
  (forall l w, R w (snd (body l w))) ->
  forall w, R w (snd (if_present l body w)).
Proof. intros H w. destruct l; [apply H | apply R_refl]. Qed.

Lemma related_callback (objectPath : jsstring -> jsstring -> jsstring) :
  (forall base zone w, R w (snd (add_zone objectPath base zone w))) ->
  (forall zone w, R w (snd (change_zone objectPath zone w))) ->
  (forall zoneId w, R w (snd (remove_zone zoneId w))) ->
  (forall change w, R w (snd (seek_change change w))) ->
  forall data w, R w (snd (subscribe_zones_callback objectPath data w)).
Proof.
  intros Hadd Hchange Hremove Hseek data w.
  unfold subscribe_zones_callback. unfold bind at 1, get_core.
  destruct (core w ≫= ws_url) as [url|]; [|apply R_refl].
  apply related_bind; [|intros _].
  { unfold onZonesAdded. apply related_for_of. apply Hadd. }
  apply related_bind; [|intros _].
  { apply related_if_present. intros l. unfold onZonesChanged.
    apply related_for_of. apply Hchange. }
  apply related_bind; [|intros _].
  { apply related_if_present. intros l. unfold onZonesRemoved.
    apply related_for_of. apply Hremove. }
  apply related_if_present. intros l. unfold onZonesSeekChanged.
  apply related_for_of. apply Hseek.
Qed.

End Steps.

Module InvariantFacts.

Lemma player_ids_insert_new (m : gmap jsstring Context) (k : jsstring)
    (c : Context) :
  m !! k = None ->
  player_ids (<[k := c]> m) ≡ₚ player_id (player c) :: player_ids m.
Proof.
  intros Hnew. unfold player_ids.
  rewrite (map_to_list_insert m k c Hnew). reflexivity.
Qed.

Lemma player_ids_delete (m : gmap jsstring Context) (k : jsstring)
    (c : Context) :
  m !! k = Some c ->
  player_id (player c) :: player_ids (delete k m) ≡ₚ player_ids m.
Proof.
  intros Hknown. unfold player_ids.
  rewrite <- (map_to_list_delete m k c Hknown). reflexivity.
Qed.

Lemma player_ids_replace (m : gmap jsstring Context) (k : jsstring)
    (c c' : Context) :
  m !! k = Some c ->
  player_id (player c') = player_id (player c) ->
  player_ids (<[k := c']> m) ≡ₚ player_ids m.
Proof.
  intros Hknown Hid.
  rewrite <- insert_delete_eq.
  rewrite player_ids_insert_new by apply lookup_delete_eq.
  rewrite Hid. apply player_ids_delete, Hknown.
Qed.

Lemma player_ids_elem (m : gmap jsstring Context) (i : nat) :
  i ∈ player_ids m ->
  exists k c, m !! k = Some c /\ player_id (player c) = i.
Proof.
  unfold player_ids. intros Hin.
  apply list_elem_of_In, in_map_iff in Hin as ([k c] & Hid & Hin).
  apply list_elem_of_In, elem_of_map_to_list in Hin.
  exists k, c. split; [exact Hin | exact Hid].
Qed.

Lemma context_ok_parts (made : nat) (k : jsstring) (c : Context) :
  context_ok made k c = true ->
  zone_id (zone c) = k /\ (player_id (player c) < made)%nat
  /\ has_bus (player c) = true.
Proof.
  unfold context_ok. rewrite !andb_true_iff.
  intros [[[[[[Hk Hid] Hbus] _] _] _] _].
  apply bool_decide_eq_true in Hk, Hid. repeat split; assumption.
Qed.

Lemma context_ok_more (made made' : nat) (k : jsstring) (c : Context) :
  (made <= made')%nat ->
  context_ok made k c = true -> context_ok made' k c = true.
Proof.
  intros Hle. unfold context_ok. rewrite !andb_true_iff.
  intros [[[[[[Hk Hid] Hbus] Hname] Hprefix] Hmatch] Hdigit].
  repeat split; try assumption.
  apply bool_decide_eq_true in Hid. apply bool_decide_eq_true. lia.
Qed.

Lemma context_ok_identity (made : nat) (k : jsstring) (c c' : Context) :
  same_identity c c' -> zone_id (zone c') = zone_id (zone c) ->
  context_ok made k c = true -> context_ok made k c' = true.
Proof.
  intros (Hsan & Hid & Hname & Hbus) Hzone. unfold context_ok.
  rewrite Hsan, Hid, Hname, Hbus, Hzone. exact id.
Qed.

Lemma context_ok_created (made : nat) (zone : Zone) (base : jsstring) :
  context_ok (S made) (zone_id zone) (created_context made zone base) = true.
Proof.
  unfold context_ok, created_context.
  cbn [player sanitizedName new_Player player_id name has_bus].
  destruct (SanitizerMore.result_is_valid (display_name zone)) as [Hm Hd].
  change (take 5 (lit "roon_" ++ ?s)) with (lit "roon_").
  change (drop 5 (lit "roon_" ++ ?s)) with s.
  rewrite Hm, Hd. rewrite !bool_decide_eq_true_2 by (reflexivity || lia).
  reflexivity.
Qed.

Lemma frame_identity (c c' : Context) : same_frame c c' -> same_identity c c'.
Proof. unfold same_frame, same_identity. intuition. Qed.

Lemma count_app {A} (f : A -> bool) (a b : list A) :
  length (List.filter f (a ++ b))
  = (length (List.filter f a) + length (List.filter f b))%nat.
Proof. rewrite List.filter_app, length_app. reflexivity. Qed.

Lemma logs_are_no_new (events : list Event) :
  forallb is_log events = true -> List.filter is_player_new events = [].
Proof.
  induction events as [|e events IH]; [reflexivity|].
  cbn [forallb List.filter]. intros [He Hrest]%andb_true_iff.
  destruct e; try discriminate. cbn. apply IH, Hrest.
Qed.

Lemma logs_are_no_disconnect (events : list Event) :
  forallb is_log events = true -> List.filter is_disconnect events = [].
Proof.
  induction events as [|e events IH]; [reflexivity|].
  cbn [forallb List.filter]. intros [He Hrest]%andb_true_iff.
  destruct e; try discriminate. cbn. apply IH, Hrest.
Qed.

End InvariantFacts.

Module WorldFacts.
Import InvariantFacts.

Lemma filter_effects (f : Event -> bool) (events : list Event) :
  (forall e, f e = true -> is_log e = false) ->
  List.filter f (effects events) = List.filter f events.
Proof.
  intros Hf. unfold effects.
  induction events as [|e events IH]; [reflexivity|].
  cbn [List.filter]. destruct (is_log e) eqn:Hlog; cbn [negb].
  - destruct (f e) eqn:He; [|exact IH].
    apply Hf in He. congruence.
  - cbn [List.filter]. rewrite IH. reflexivity.
Qed.

Lemma new_is_effect (e : Event) : is_player_new e = true -> is_log e = false.
Proof. destruct e; (discriminate || reflexivity). Qed.

Lemma disconnect_is_effect (e : Event) :
  is_disconnect e = true -> is_log e = false.
Proof. destruct e; (discriminate || reflexivity). Qed.

(** The two counts of the trace after further events, given the effects
    among them. *)
Lemma accounted_after (w : World) (registry : gmap jsstring Context)
    (made : nat) (new : list Event) :
  accounted w ->
  (players_made w + length (List.filter is_player_new (effects new))
   = made)%nat ->
  (size (zonePlayerMap w) + (made - players_made w)
   = size registry + length (List.filter is_disconnect (effects new)))%nat ->
  accounted (world_after w registry made new).
Proof.
  intros [Hnew Hacc] Hmade Hsize. unfold accounted, world_after.
  cbn [trace players_made zonePlayerMap].
  rewrite !count_app, Hnew.
  rewrite (filter_effects _ _ new_is_effect) in Hmade.
  rewrite (filter_effects _ _ disconnect_is_effect) in Hsize.
  split; lia.
Qed.

Lemma well_formed_replace (w : World) (k : jsstring) (c c' : Context)
    (new : list Event) :
  well_formed w ->
  zonePlayerMap w !! k = Some c ->
  zone_id (zone c') = k ->
  same_identity c c' ->
  well_formed
    (world_after w (<[k := c']> (zonePlayerMap w)) (players_made w) new).
Proof.
  intros [Hall Hdup] Hknown Hzone Hsame. split;
    cbn [world_after zonePlayerMap players_made].
  - apply map_Forall_insert_2; [|exact Hall].
    pose proof (Hall k c Hknown) as Hok. cbn beta in Hok.
    eapply context_ok_identity; [exact Hsame | | exact Hok].
    destruct (context_ok_parts _ _ _ Hok) as (Hk & _). congruence.
  - rewrite (player_ids_replace _ k c c' Hknown); [exact Hdup|].
    apply Hsame.
Qed.

Lemma well_formed_new (w : World) (k : jsstring) (c : Context)
    (new : list Event) :
  well_formed w ->
  zonePlayerMap w !! k = None ->
  context_ok (S (players_made w)) k c = true ->
  player_id (player c) = players_made w ->
  well_formed
    (world_after w (<[k := c]> (zonePlayerMap w)) (S (players_made w)) new).
Proof.
  intros [Hall Hdup] Hnew Hok Hid. split;
    cbn [world_after zonePlayerMap players_made].
  - apply map_Forall_insert_2; [exact Hok|].
    eapply map_Forall_impl; [exact Hall|].
    intros k' c' Hok'. eapply context_ok_more; [|exact Hok']. lia.
  - rewrite (player_ids_insert_new _ k c Hnew). apply NoDup_cons.
    split; [|exact Hdup].
    intros (k' & c' & Hlookup & Hid')%player_ids_elem.
    pose proof (Hall k' c' Hlookup) as Hok'. cbn beta in Hok'.
    destruct (context_ok_parts _ _ _ Hok') as (_ & Hlt & _). lia.
Qed.

Lemma well_formed_delete (w : World) (k : jsstring) (new : list Event) :
  well_formed w ->
  well_formed
    (world_after w (delete k (zonePlayerMap w)) (players_made w) new).
Proof.
  intros [Hall Hdup]. split; cbn [world_after zonePlayerMap players_made].
  - apply map_Forall_delete, Hall.
  - destruct (zonePlayerMap w !! k) as [c|] eqn:Hlookup.
    + rewrite <- (player_ids_delete _ k c Hlookup) in Hdup.
      apply NoDup_cons in Hdup as [_ Hdup]. exact Hdup.
    + rewrite delete_id by exact Hlookup. exact Hdup.
Qed.

Lemma well_formed_log (w : World) (new : list Event) :
  well_formed w -> well_formed (log_events w new).
Proof. intros H. exact H. Qed.

Lemma accounted_log (w : World) (new : list Event) :
  forallb is_log new = true -> accounted w -> accounted (log_events w new).
Proof.
  intros Hlog Hacc. rewrite log_events_world_after.
  apply accounted_after; [exact Hacc | |];
    rewrite (effects_of_logs _ Hlog); cbn; lia.
Qed.

End WorldFacts.

Section BranchInvariants.

Import InvariantFacts WorldFacts.

Variable objectPath : jsstring -> jsstring -> jsstring.

Lemma add_zone_invariant (base : jsstring) (zone : Zone) (w : World) :
  well_formed w /\ accounted w ->
  well_formed (snd (add_zone objectPath base zone w))
  /\ accounted (snd (add_zone objectPath base zone w)).
Proof.
  intros [Hwf Hacc].
  destruct (zonePlayerMap w !! zone_id zone) as [c|] eqn:Hlookup.
  - rewrite (add_zone_known objectPath _ _ _ _ Hlookup). cbn [snd].
    split; [exact Hwf|].
    apply accounted_log; [apply debug_zone_log_is_log | exact Hacc].
  - destruct (add_zone_unknown_summary objectPath base zone w Hlookup)
      as (c & new & -> & Heff & Hzone & Hframe).
    pose proof (frame_identity _ _ Hframe) as Hsame.
    split.
    + apply well_formed_new; [exact Hwf | exact Hlookup | |].
      * eapply context_ok_identity; [exact Hsame | |].
        -- unfold snapshot in Hzone. rewrite Hzone. reflexivity.
        -- apply context_ok_created.
      * destruct Hsame as (_ & Hid & _). exact Hid.
    + apply accounted_after; [exact Hacc | |];
        rewrite Heff; cbn [List.filter is_player_new is_disconnect length].
      * lia.
      * rewrite map_size_insert_None by exact Hlookup. lia.
Qed.

Lemma change_zone_invariant (zone : Zone) (w : World) :
  well_formed w /\ accounted w ->
  well_formed (snd (change_zone objectPath zone w))
  /\ accounted (snd (change_zone objectPath zone w)).
Proof.
  intros [Hwf Hacc].
  destruct (zonePlayerMap w !! zone_id zone) as [c|] eqn:Hlookup.
  - destruct (change_zone_known objectPath zone w c Hlookup)
      as (printed & Hlog & ->).
    cbn [snd].
    set (c' := match projection objectPath (with_zone c zone) with
               | Normal projected => projected
               | Throw _ => with_zone c zone
               end).
    assert (snapshot c' = zone /\ same_frame c c') as [Hzone Hframe].
    { subst c'.
      destruct (projection objectPath (with_zone c zone))
        as [projected|e] eqn:Hp.
      - apply projection_Normal in Hp as (Hzone & Hframe & _).
        split; [exact Hzone|].
        eapply same_frame_trans; [apply with_zone_frame | exact Hframe].
      - split; [reflexivity | apply with_zone_frame]. }
    split.
    + apply (well_formed_replace w _ c c'); try assumption.
      * unfold snapshot in Hzone. rewrite Hzone. reflexivity.
      * apply frame_identity, Hframe.
    + apply accounted_after; [exact Hacc | |];
        rewrite (effects_of_logs _ Hlog); cbn [List.filter length].
      * lia.
      * rewrite map_size_insert_Some by (rewrite Hlookup; eauto). lia.
  - rewrite (change_zone_unknown objectPath) by exact Hlookup.
    split; assumption.
Qed.

Lemma remove_zone_invariant (zoneId : jsstring) (w : World) :
  well_formed w /\ accounted w ->
  well_formed (snd (remove_zone zoneId w))
  /\ accounted (snd (remove_zone zoneId w)).
Proof.
  intros [Hwf Hacc].
  destruct (zonePlayerMap w !! zoneId) as [c|] eqn:Hlookup.
  - rewrite (remove_zone_known _ _ _ Hlookup). cbn [snd].
    split; [apply well_formed_delete, Hwf|].
    pose proof (proj1 Hwf zoneId c Hlookup) as Hok. cbn beta in Hok.
    destruct (context_ok_parts _ _ _ Hok) as (_ & _ & ->).
    apply accounted_after; [exact Hacc | |];
      cbn [effects List.filter is_log negb is_player_new is_disconnect
           length].
    + lia.
    + rewrite map_size_delete_Some by (rewrite Hlookup; eauto).
      assert (size (zonePlayerMap w) <> 0%nat); [|lia].
      intros Hzero%map_size_empty_inv. rewrite Hzero in Hlookup.
      rewrite lookup_empty in Hlookup. discriminate.
  - rewrite remove_zone_unknown by exact Hlookup. split; assumption.
Qed.

Lemma seek_change_invariant (change : SeekChange) (w : World) :
  well_formed w /\ accounted w ->
  well_formed (snd (seek_change change w))
  /\ accounted (snd (seek_change change w)).
Proof.
  intros [Hwf Hacc].
  destruct (zonePlayerMap w !! chg_zone_id change) as [c|] eqn:Hlookup.
  - rewrite (seek_change_known _ _ _ Hlookup). cbn [snd]. split.
    + apply (well_formed_replace w _ c); try assumption.
      * pose proof (proj1 Hwf _ c Hlookup) as Hok. cbn beta in Hok.
        destruct (context_ok_parts _ _ _ Hok) as (Hk & _). exact Hk.
      * repeat split.
    + apply accounted_after; [exact Hacc | |];
        destruct (isSeek _ _);
        cbn [effects List.filter is_log negb is_player_new is_disconnect
             length];
        rewrite ?map_size_insert_Some by (rewrite Hlookup; eauto); lia.
  - rewrite seek_change_unknown by exact Hlookup. split; assumption.
Qed.

End BranchInvariants.

(** ** Loss of the controller *)

Module TeardownFacts.
Import InvariantFacts.

Lemma destroy_all (entries : list (jsstring * Context)) (w : World) :
  Forall (fun e => has_bus (player e.2) = true) entries ->
  for_of entries (fun e => destroyPlayerContext e.2) w
  = (Normal tt,
     log_events w
       (map (fun e => BusDisconnect (player_id (player e.2))) entries)).
Proof.
  intros Hbus. revert w.
  induction Hbus as [|e entries He _ IH]; intros w.
  - cbn. rewrite log_events_nil. reflexivity.
  - rewrite for_of_cons. unfold destroyPlayerContext at 1. rewrite He.
    unfold when, emit. rewrite IH, log_events_app. reflexivity.
Qed.

Lemma registry_entries_perm (m : gmap jsstring Context) :
  registry_entries m ≡ₚ map_to_list m.
Proof. apply merge_sort_Permutation. Qed.

Lemma entries_have_bus (w : World) :
  well_formed w ->
  Forall (fun e => has_bus (player e.2) = true)
    (registry_entries (zonePlayerMap w)).
Proof.
  intros [Hall _]. rewrite registry_entries_perm.
  apply Forall_forall. intros [k c] Hin%elem_of_map_to_list.
  pose proof (Hall k c Hin) as Hok. cbn beta in Hok.
  destruct (context_ok_parts _ _ _ Hok) as (_ & _ & Hbus). exact Hbus.
Qed.

#[local] Instance le_ids_total : Total by_player_id.
Proof. intros a b. unfold by_player_id. lia. Qed.

Lemma entries_sorted (m : gmap jsstring Context) :
  Sorted le (map (fun e => player_id (player e.2)) (registry_entries m)).
Proof.
  pose proof (Sorted_merge_sort by_player_id (map_to_list m)) as Hsorted.
  fold (registry_entries m) in Hsorted.
  induction Hsorted as [|e l _ IH Hhd]; [constructor|].
  cbn [map]. constructor; [exact IH|].
  destruct Hhd as [|e' l Hle]; constructor. exact Hle.
Qed.

(** [core_unpaired] on a well-formed world. *)
Lemma core_unpaired_eq (core_ : LostCore) (w : World) :
  well_formed w ->
  snd (core_unpaired core_ w)
  = {| core := None; argv_debug := argv_debug w; zonePlayerMap := ∅;
       players_made := players_made w;
       trace :=
         trace w
           ++ map BusDisconnect
                (map (fun e => player_id (player e.2))
                   (registry_entries (zonePlayerMap w))) |}.
Proof.
  intros Hwf. unfold core_unpaired. cbn [snd].
  rewrite (destroy_all _ _ (entries_have_bus w Hwf)).
  cbn [snd log_events argv_debug players_made trace].
  rewrite map_map. reflexivity.
Qed.

Lemma callback_without_core
    (objectPath : jsstring -> jsstring -> jsstring) (data : Data)
    (w : World) :
  core w = None ->
  subscribe_zones_callback objectPath data w = (Normal tt, w).
Proof.
  intros Hcore. unfold subscribe_zones_callback, bind, get_core.
  rewrite Hcore. reflexivity.
Qed.

End TeardownFacts.

(** The sample worlds are well formed. *)
Lemma world_with_well_formed (z : Zone) (last : Z) :
  well_formed (world_with z last).
Proof.
  split; cbn [world_with zonePlayerMap players_made].
  - apply map_Forall_insert_2; [|apply map_Forall_empty].
    unfold context_ok. cbn [sample_context zone].
    rewrite bool_decide_eq_true_2 by reflexivity. reflexivity.
  - unfold player_ids. rewrite map_to_list_singleton. apply NoDup_singleton.
Qed.

(** X18. When the controller is lost, every registered player is
    disconnected from the bus exactly once, in the order of construction,
    the registry is emptied and [core] is unset; no player is constructed
    and one line is printed per zone after the line that reports the
    loss. *)
Theorem core_unpaired_teardown (core_ : LostCore) (w : World) :
  well_formed w ->
  let w' := snd (core_unpaired core_ w) in
  zonePlayerMap w' = ∅
  /\ core w' = None
  /\ players_made w' = players_made w
  /\ length (fst (core_unpaired core_ w)) = S (size (zonePlayerMap w))
  /\ exists ids,
       trace w' = trace w ++ map BusDisconnect ids
       /\ ids ≡ₚ player_ids (zonePlayerMap w)
       /\ NoDup ids
       /\ Sorted le ids.
Proof.
  intros Hwf w'. subst w'. rewrite (TeardownFacts.core_unpaired_eq _ _ Hwf).
  cbn [zonePlayerMap core players_made trace].
  split; [reflexivity|]. split; [reflexivity|]. split; [reflexivity|].
  split.
  { unfold core_unpaired. cbn [fst length]. rewrite length_map.
    rewrite TeardownFacts.registry_entries_perm, length_map_to_list.
    reflexivity. }
  eexists. split; [reflexivity|].
  assert (map (fun e : jsstring * Context => player_id (player e.2))
            (registry_entries (zonePlayerMap w))
          ≡ₚ player_ids (zonePlayerMap w)) as Hperm.
  { unfold player_ids. rewrite TeardownFacts.registry_entries_perm.
    reflexivity. }
  split; [exact Hperm|]. split.
  - rewrite Hperm. apply Hwf.
  - apply TeardownFacts.entries_sorted.
Qed.

Lemma core_unpaired_teardown_witness :
  trace (snd (core_unpaired
                {| core_id := lit "c1"; lost_display_name := lit "Core";
                   lost_display_version := lit "2.0" |}
                (world_with living_room 0)))
  = [BusDisconnect 0%nat].
Proof.
  destruct (core_unpaired_teardown
              {| core_id := lit "c1"; lost_display_name := lit "Core";
                 lost_display_version := lit "2.0" |}
              (world_with living_room 0)
              (world_with_well_formed living_room 0))
    as (_ & _ & _ & _ & ids & -> & Hperm & _).
  assert (player_ids (zonePlayerMap (world_with living_room 0)) = [0%nat])
    as Hids by (vm_compute; reflexivity).
  rewrite Hids in Hperm. apply Permutation_singleton_r in Hperm as ->.
  reflexivity.
Defined.

Section LostClaims.

Variable objectPath : jsstring -> jsstring -> jsstring.

(** X19. Once the controller is lost the engine is inert until the next
    pairing: every batch of the subscription is ignored, the world staying
    as it is, and every event of a player returns normally after printing,
    without any call to the transport. *)
Theorem lost_engine_is_inert
    (core_ : LostCore) (w : World) (data : Data) (zoneId : jsstring)
    (ev : PlayerEvent) :
  let w' := snd (core_unpaired core_ w) in
  subscribe_zones_callback objectPath data w' = (Normal tt, w')
  /\ exists printed,
       fire zoneId ev w' = (Normal tt, log_events w' printed)
       /\ effects printed = [].
Proof.
  intros w'.
  assert (core w' = None) as Hcore by reflexivity.
  split; [apply TeardownFacts.callback_without_core, Hcore|].
  destruct (fire_effects zoneId ev w') as (new & Heq & _ & _ & Hnone).
  exists new. split; [exact Heq|]. apply Hnone.
  destruct ev; auto.
Qed.

End LostClaims.

(** ** What every run of the engine keeps *)

Section RunClaims.

Import InvariantFacts WorldFacts.

Variable objectPath : jsstring -> jsstring -> jsstring.

Lemma pristine_invariant (w : World) :
  pristine w -> well_formed w /\ accounted w.
Proof.
  intros (Hmap & Hmade & Htrace). unfold well_formed, accounted, player_ids.
  rewrite Hmap, Hmade, Htrace, map_to_list_empty, map_size_empty.
  repeat split; [apply map_Forall_empty | apply NoDup_nil_2].
Qed.

Lemma callback_invariant (data : Data) (w : World) :
  well_formed w /\ accounted w ->
  well_formed (snd (subscribe_zones_callback objectPath data w))
  /\ accounted (snd (subscribe_zones_callback objectPath data w)).
Proof.
  revert data w.
  apply (related_callback
           (fun w w' =>
              well_formed w /\ accounted w ->
              well_formed w' /\ accounted w')); auto.
  - apply add_zone_invariant.
  - apply change_zone_invariant.
  - apply remove_zone_invariant.
  - apply seek_change_invariant.
Qed.

Lemma fire_invariant (zoneId : jsstring) (ev : PlayerEvent) (w : World) :
  well_formed w /\ accounted w ->
  well_formed (snd (fire zoneId ev w)) /\ accounted (snd (fire zoneId ev w)).
Proof.
  intros [Hwf Hacc].
  destruct (fire_effects zoneId ev w) as (new & -> & Hcalls & _).
  cbn [snd]. split; [exact Hwf|].
  rewrite log_events_world_after.
  assert (forall f,
             (forall e, f e = true -> is_transport_call e = false) ->
             List.filter f (effects new) = []) as Hnone.
  { intros f Hf. induction (effects new) as [|e l IH]; [reflexivity|].
    cbn [forallb] in Hcalls. apply andb_true_iff in Hcalls as [He Hl].
    cbn [List.filter]. destruct (f e) eqn:Hfe; [|apply IH, Hl].
    apply Hf in Hfe. congruence. }
  apply accounted_after; [exact Hacc | |];
    rewrite Hnone by (intros []; (discriminate || reflexivity));
    cbn [length]; lia.
Qed.

Lemma core_unpaired_invariant (core_ : LostCore) (w : World) :
  well_formed w /\ accounted w ->
  well_formed (snd (core_unpaired core_ w))
  /\ accounted (snd (core_unpaired core_ w)).
Proof.
  intros [Hwf [Hnew Hacc]].
  rewrite (TeardownFacts.core_unpaired_eq _ _ Hwf). split.
  - split; cbn [zonePlayerMap players_made].
    + apply map_Forall_empty.
    + unfold player_ids. rewrite map_to_list_empty. apply NoDup_nil_2.
  - unfold accounted. cbn [trace players_made zonePlayerMap].
    rewrite !count_app, map_size_empty.
    assert (forall ids,
               List.filter is_player_new (map BusDisconnect ids) = []
               /\ length (List.filter is_disconnect (map BusDisconnect ids))
                  = length ids) as Hcount.
    { induction ids as [|i ids [IHn IHd]]; [split; reflexivity|].
      cbn. rewrite IHn, IHd. split; reflexivity. }
    destruct (Hcount (map (fun e : jsstring * Context =>
                             player_id (player e.2))
                        (registry_entries (zonePlayerMap w)))) as [-> ->].
    rewrite length_map, TeardownFacts.registry_entries_perm,
      length_map_to_list.
    cbn [length]. split; lia.
Qed.

Lemma step_invariant (w : World) (input : Input) :
  well_formed w /\ accounted w ->
  well_formed (step objectPath w input)
  /\ accounted (step objectPath w input).
Proof.
  destruct input as [data|zoneId ev|core_]; cbn [step].
  - apply callback_invariant.
  - apply fire_invariant.
  - apply core_unpaired_invariant.
Qed.

(** X20. Whatever batches, player events and losses of the controller an
    engine that started without zones has handled, and however its
    callbacks ended: every context of the registry is filed under the
    identifier of its snapshot, no two contexts share a player object,
    every registered player is connected to the bus under a name that is
    [roon_] followed by a valid name, and every player ever constructed is
    either registered or has been disconnected. *)
Theorem engine_invariants (inputs : list Input) (w : World) :
  pristine w ->
  well_formed (run objectPath inputs w)
  /\ accounted (run objectPath inputs w).
Proof.
  intros Hstart%pristine_invariant. unfold run. revert w Hstart.
  induction inputs as [|input inputs IH]; intros w Hinv; [exact Hinv|].
  cbn [fold_left]. apply IH, step_invariant, Hinv.
Qed.

Lemma extends_refl (w : World) : extends w w.
Proof.
  repeat split; [lia|]. exists []. rewrite app_nil_r. split; reflexivity.
Qed.

Lemma extends_trans (a b c : World) : extends a b -> extends b c -> extends a c.
Proof.
  intros (Hc1 & Hd1 & Hm1 & n1 & Ht1 & Hn1) (Hc2 & Hd2 & Hm2 & n2 & Ht2 & Hn2).
  repeat split; [congruence | congruence | lia |].
  exists (n1 ++ n2). rewrite Ht2, Ht1, <- app_assoc, forallb_app, Hn1, Hn2.
  split; reflexivity.
Qed.

Lemma extends_world_after (w : World) (registry : gmap jsstring Context)
    (made : nat) (new : list Event) :
  (players_made w <= made)%nat ->
  forallb (fun e => negb (is_transport_call e)) (effects new) = true ->
  extends w (world_after w registry made new).
Proof.
  intros Hmade Hnew. repeat split; [exact Hmade|].
  exists new. split; [reflexivity|].
  unfold effects in Hnew. induction new as [|e new IH]; [reflexivity|].
  cbn [forallb List.filter] in *. destruct e; cbn in *;
    try (apply andb_true_iff in Hnew as [_ Hnew]); try discriminate;
    apply IH, Hnew.
Qed.

Lemma logs_are_no_calls (events : list Event) :
  forallb is_log events = true ->
  forallb (fun e => negb (is_transport_call e)) events = true.
Proof.
  induction events as [|e events IH]; [reflexivity|].
  cbn [forallb]. intros [He Hrest]%andb_true_iff.
  rewrite (IH Hrest), andb_true_r. destruct e; (discriminate || reflexivity).
Qed.

(** X21. A batch of the zone subscription, however it ends, leaves the
    controller and the options alone, never lowers the count of players
    and only adds to the trace; nothing it adds is a call to the
    transport: the projection never commands the zones it mirrors. *)
Theorem callback_extends (data : Data) (w : World) :
  extends w (snd (subscribe_zones_callback objectPath data w)).
Proof.
  revert data w.
  apply (related_callback extends extends_refl extends_trans).
  - intros base zone w.
    destruct (zonePlayerMap w !! zone_id zone) as [c|] eqn:Hlookup.
    + rewrite (add_zone_known objectPath _ _ _ _ Hlookup). cbn [snd].
      rewrite log_events_world_after.
      apply extends_world_after; [lia|].
      rewrite (effects_of_logs _ (debug_zone_log_is_log _ _)). reflexivity.
    + destruct (add_zone_unknown_summary objectPath base zone w Hlookup)
        as (c & new & -> & Heff & _).
      apply extends_world_after; [lia|]. rewrite Heff. reflexivity.
  - intros zone w.
    destruct (zonePlayerMap w !! zone_id zone) as [c|] eqn:Hlookup.
    + destruct (change_zone_known objectPath zone w c Hlookup)
        as (printed & Hlog & ->).
      cbn [snd]. apply extends_world_after; [lia|].
      rewrite (effects_of_logs _ Hlog). reflexivity.
    + rewrite (change_zone_unknown objectPath) by exact Hlookup.
      apply extends_refl.
  - intros zoneId w.
    destruct (zonePlayerMap w !! zoneId) as [c|] eqn:Hlookup.
    + rewrite (remove_zone_known _ _ _ Hlookup). cbn [snd].
      apply extends_world_after; [lia|].
      destruct (has_bus (player c)); reflexivity.
    + rewrite remove_zone_unknown by exact Hlookup. apply extends_refl.
  - intros change w.
    destruct (zonePlayerMap w !! chg_zone_id change) as [c|] eqn:Hlookup.
    + rewrite (seek_change_known _ _ _ Hlookup). cbn [snd].
      apply extends_world_after; [lia|].
      destruct (isSeek _ _); reflexivity.
    + rewrite seek_change_unknown by exact Hlookup. apply extends_refl.
Qed.

End RunClaims.

(** ** The settings service *)

Module SettingsFacts.
Import Settings.

Section WithValues.

Variable V : Type.

Lemma save_all_app (a b : list (bool * V)) (mysettings : V) :
  save_all V (a ++ b) mysettings
  = (fst (save_all V a mysettings)
       ++ fst (save_all V b (snd (save_all V a mysettings))),
     snd (save_all V b (snd (save_all V a mysettings)))).
Proof.
  revert mysettings. induction a as [|[dry v] a IH]; intros mysettings.
  - cbn. destruct (save_all V b mysettings). reflexivity.
  - cbn [app save_all].
    destruct (save_settings V dry v mysettings) as [done mine].
    rewrite IH. destruct (save_all V a mine) as [more mine'].
    cbn [fst snd]. rewrite app_assoc. reflexivity.
Qed.

Lemma save_all_result (saves : list (bool * V)) (mysettings : V) :
  snd (save_all V saves mysettings)
  = default mysettings (last_saved V saves)
  /\ (last_saved V saves = None ->
      stored_config V (fst (save_all V saves mysettings)) = None)
  /\ (forall v, last_saved V saves = Some v ->
      stored_config V (fst (save_all V saves mysettings)) = Some v).
Proof.
  unfold last_saved, stored_config.
  induction saves as [|[dry v] saves IH] using rev_ind.
  - cbn. repeat split. discriminate.
  - rewrite save_all_app. cbn [fst snd].
    destruct IH as (IHs & IHn & IHv).
    rewrite List.filter_app, map_app, omap_app.
    destruct dry; cbn.
    + rewrite !app_nil_r. repeat split; assumption.
    + rewrite !last_snoc. cbn [default]. repeat split.
      * discriminate.
      * intros v' [= <-]. reflexivity.
Qed.

End WithValues.

End SettingsFacts.

(** X22. After any series of saves the settings service holds the values
    of the last save that was not a dry run: they are what [get_settings]
    hands out and what was last given to the store; without such a save
    the settings are the initial ones and nothing has been given to the
    store.  Every save, dry run or not, is answered with [Success], once,
    with a layout that carries the values submitted. *)
Theorem settings_follow_last_save
    (V : Type) (saves : list (bool * V)) (mysettings : V) :
  let done := fst (Settings.save_all V saves mysettings) in
  let mine := snd (Settings.save_all V saves mysettings) in
  Settings.values V (Settings.get_settings V mine)
  = default mysettings (Settings.last_saved V saves)
  /\ Settings.stored_config V done = Settings.last_saved V saves
  /\ List.filter (Settings.is_reply V) done
     = map (fun s =>
              Settings.SendComplete V (lit "Success")
                (Settings.makelayout V (snd s))) saves.
Proof.
  intros done mine. subst done mine.
  destruct (SettingsFacts.save_all_result V saves mysettings)
    as (Hmine & Hnone & Hsome).
  split; [exact Hmine|]. split.
  - destruct (Settings.last_saved V saves) as [v|].
    + apply Hsome. reflexivity.
    + apply Hnone. reflexivity.
  - clear. revert mysettings.
    induction saves as [|[dry v] saves IH]; intros mysettings;
      [reflexivity|].
    cbn [Settings.save_all].
    destruct (Settings.save_settings V dry v mysettings) as [one mine] eqn:H1.
    specialize (IH mine).
    destruct (Settings.save_all V saves mine) as [more mine'].
    cbn [fst] in *. rewrite List.filter_app, IH.
    unfold Settings.save_settings in H1. cbn in H1.
    destruct dry; injection H1 as <- <-; reflexivity.
Qed.

(** ** Batches of new zones *)

Section BatchClaims.

Variable objectPath : jsstring -> jsstring -> jsstring.

Lemma projects_false (context : Context) :
  projects (snapshot context) = false ->
  exists e, projection objectPath context = Throw e.
Proof.
  unfold projects, projection, build_metadata, snapshot.
  destruct (now_playing (zone context)) as [np|]; [|discriminate].
  destruct (three_line np) as [lines|]; [|eauto].
  destruct (line2 lines); [discriminate | eauto].
Qed.

Lemma projects_true (context : Context) :
  projects (snapshot context) = true ->
  exists projected, projection objectPath context = Normal projected.
Proof.
  unfold projects, projection, build_metadata, snapshot.
  destruct (now_playing (zone context)) as [np|]; [|eauto].
  destruct (three_line np) as [lines|]; [|discriminate].
  destruct (line2 lines); [eauto | discriminate].
Qed.

Lemma add_zone_projects (base : jsstring) (zone : Zone) (w : World) :
  zonePlayerMap w !! zone_id zone = None ->
  projects zone = true ->
  exists context new,
    add_zone objectPath base zone w
    = (Normal tt,
       world_after w (<[zone_id zone := context]> (zonePlayerMap w))
         (S (players_made w)) new)
    /\ snapshot context = zone
    /\ player_id (player context) = players_made w
    /\ shows_status zone (player context).
Proof.
  intros Hnew Hprojects.
  rewrite (add_zone_unknown objectPath) by exact Hnew.
  destruct (projects_true (created_context (players_made w) zone base)
              Hprojects) as [projected Hp].
  rewrite Hp. eexists _, _. split; [reflexivity|].
  apply projection_Normal in Hp as (Hzone & Hframe & Hstatus & _).
  destruct Hframe as (_ & _ & _ & Hid & _).
  split; [exact Hzone|]. split; [exact Hid | exact Hstatus].
Qed.

(** X23. A zone whose projection throws ends the batch on the spot.  When
    the first zone to add is not registered yet and has a now-playing
    record without [three_line] or [line2], the callback throws after
    registering that zone with a player that has received no state; the
    zones listed after it and the changed, removed and seek entries of the
    same batch are not handled at all. *)
Theorem throwing_zone_stops_batch
    (data : Data) (zone : Zone) (rest : list Zone) (w : World)
    (c : Core) (url : jsstring) :
  core w = Some c ->
  ws_url c = Some url ->
  zones data = Some (zone :: rest)
  \/ (zones data = None /\ zones_added data = Some (zone :: rest)) ->
  zonePlayerMap w !! zone_id zone = None ->
  projects zone = false ->
  exists e printed,
    subscribe_zones_callback objectPath data w
    = (Throw e,
       world_after w
         (<[zone_id zone :=
              created_context (players_made w) zone (drop 5 url)]>
            (zonePlayerMap w))
         (S (players_made w)) printed)
    /\ effects printed
       = [PlayerNew (players_made w)
            (lit "roon_" ++ Sanitizer.sanitizeForDBus (display_name zone))
            (lit "Roon - " ++ display_name zone)].
Proof.
  intros Hcore Hurl Hzones Hnew Hthrows.
  destruct (projects_false
              (created_context (players_made w) zone (drop 5 url)) Hthrows)
    as [e Hp].
  exists e. eexists. split.
  - unfold subscribe_zones_callback. unfold bind at 1, get_core.
    rewrite Hcore. cbn [mbind option_bind]. rewrite Hurl.
    assert (match zones data, zones_added data with
            | Some l, _ => l
            | None, Some l => l
            | None, None => []
            end = zone :: rest) as ->.
    { destruct Hzones as [-> | [-> ->]]; reflexivity. }
    unfold bind at 1. unfold onZonesAdded. rewrite for_of_cons.
    rewrite (add_zone_unknown objectPath) by exact Hnew.
    rewrite Hp. reflexivity.
  - rewrite !effects_app.
    rewrite (effects_of_logs _ (debug_zone_log_is_log _ _)).
    rewrite (effects_of_logs _ (projection_log_is_log objectPath _ _)).
    reflexivity.
Qed.

(** X24. A batch that adds zones of distinct identifiers, none registered
    yet and none making the projection throw, returns normally with every
    one of them registered under its identifier: each holds its snapshot
    and a player constructed for it, in the order of the list, that shows
    its status and flags; the other entries of the registry are as
    before. *)
Theorem onZonesAdded_batch
    (base : jsstring) (zones : list Zone) (w : World) :
  NoDup (map zone_id zones) ->
  (forall z, In z zones -> zonePlayerMap w !! zone_id z = None) ->
  forallb projects zones = true ->
  fst (onZonesAdded objectPath zones base w) = Normal tt
  /\ players_made (snd (onZonesAdded objectPath zones base w))
     = (players_made w + length zones)%nat
  /\ (forall key, ~ In key (map zone_id zones) ->
      zonePlayerMap (snd (onZonesAdded objectPath zones base w)) !! key
      = zonePlayerMap w !! key)
  /\ forall i z, zones !! i = Some z ->
     exists context,
       zonePlayerMap (snd (onZonesAdded objectPath zones base w))
         !! zone_id z = Some context
       /\ snapshot context = z
       /\ player_id (player context) = (players_made w + i)%nat
       /\ shows_status z (player context).
Proof.
  unfold onZonesAdded. revert w.
  induction zones as [|zone zones IH]; intros w Hdup Hnew Hprojects.
  - cbn. repeat split; [lia|]. intros i z [=].
  - cbn [map] in Hdup. apply NoDup_cons in Hdup as [Hfresh Hdup].
    cbn [forallb] in Hprojects.
    apply andb_true_iff in Hprojects as [Hzone Hrest].
    destruct (add_zone_projects base zone w
                (Hnew zone (or_introl eq_refl)) Hzone)
      as (c & new & Hadd & Hsnap & Hid & Hstatus).
    rewrite for_of_cons, Hadd.
    set (w1 := world_after w _ _ _).
    destruct (IH w1 Hdup) as (Hfst & Hmade & Hother & Heach);
      [|exact Hrest|].
    { intros z Hin. cbn [w1 world_after zonePlayerMap].
      rewrite lookup_insert_ne; [apply Hnew; right; exact Hin|].
      intros Heq. apply Hfresh. rewrite list_elem_of_In, Heq.
      apply in_map, Hin. }
    split; [exact Hfst|]. split; [rewrite Hmade; cbn; lia|]. split.
    + intros key Hkey. rewrite Hother.
      * cbn [w1 world_after zonePlayerMap]. apply lookup_insert_ne.
        intros <-. apply Hkey. left. reflexivity.
      * intros Hin. apply Hkey. right. exact Hin.
    + intros [|i] z Hz.
      * injection Hz as <-. exists c. rewrite Hother.
        -- cbn [w1 world_after zonePlayerMap]. rewrite lookup_insert_eq.
           rewrite Hid, Nat.add_0_r.
           split; [reflexivity|]. split; [exact Hsnap|].
           split; [reflexivity | exact Hstatus].
        -- rewrite <- list_elem_of_In. exact Hfresh.
      * destruct (Heach i z Hz) as (c' & Hlookup & Hsnap' & Hid' & Hst').
        exists c'. rewrite Hid'. cbn [w1 world_after players_made].
        split; [exact Hlookup|]. split; [exact Hsnap'|].
        split; [lia | exact Hst'].
Qed.

End BatchClaims.

(** ** Sample runs *)

Lemma engine_invariants_witness :
  well_formed
    (run sample_objectPath
       [Batch {| zones := Some [living_room; living_room_no_lines];
                 zones_added := None; zones_changed := None;
                 zones_removed := None; zones_seek_changed := None |};
        Request (lit "z1") (OnControl playpause);
        Lost {| core_id := lit "c1"; lost_display_name := lit "Core";
                lost_display_version := lit "2.0" |}]
       fresh_world)
  /\ accounted
       (run sample_objectPath
          [Batch {| zones := Some [living_room; living_room_no_lines];
                    zones_added := None; zones_changed := None;
                    zones_removed := None; zones_seek_changed := None |};
           Request (lit "z1") (OnControl playpause);
           Lost {| core_id := lit "c1"; lost_display_name := lit "Core";
                   lost_display_version := lit "2.0" |}]
          fresh_world).
Proof.
  apply (engine_invariants sample_objectPath). repeat split.
Defined.

Lemma throwing_zone_stops_batch_witness :
  exists e printed,
    subscribe_zones_callback sample_objectPath
      {| zones := None;
         zones_added := Some [living_room_no_lines; living_room];
         zones_changed := None; zones_removed := None;
         zones_seek_changed := None |}
      fresh_world
    = (Throw e,
       world_after fresh_world
         (<[lit "z1" :=
              created_context 0 living_room_no_lines sample_base]> ∅)
         1 printed)
    /\ effects printed
       = [PlayerNew 0 (lit "roon_Living_Room") (lit "Roon - Living Room")].
Proof.
  apply (throwing_zone_stops_batch sample_objectPath _ living_room_no_lines
           [living_room] fresh_world
           {| ws_url := Some (lit "ws://192.168.1.5:9100") |}
           (lit "ws://192.168.1.5:9100"));
    try reflexivity.
  right. split; reflexivity.
Defined.

Lemma onZonesAdded_batch_witness :
  players_made
    (snd (onZonesAdded sample_objectPath
            [living_room;
             {| zone_id := lit "z2"; display_name := lit "Kitchen";
                state := paused; now_playing := None;
                is_next_allowed := Some true;
                is_previous_allowed := Some true;
                is_pause_allowed := Some false;
                is_seek_allowed := Some false; outputs := None |}]
            sample_base fresh_world))
  = 2%nat.
Proof.
  apply (onZonesAdded_batch sample_objectPath sample_base
           [living_room;
            {| zone_id := lit "z2"; display_name := lit "Kitchen";
               state := paused; now_playing := None;
               is_next_allowed := Some true;
               is_previous_allowed := Some true;
               is_pause_allowed := Some false;
               is_seek_allowed := Some false; outputs := None |}]
           fresh_world).
  - apply NoDup_cons. split; [|apply NoDup_singleton].
    intros Hin%list_elem_of_In. cbn in Hin. destruct Hin as [H|[]].
    discriminate.
  - intros z Hin. reflexivity.
  - reflexivity.
Defined.
